(** * Federated averaging on MNIST ([Mnist/base.py])

    A shallow embedding of the federated part of [Mnist/base.py]: the local
    training loop [train] / [local_train], the server update
    [global_model_update] / [global_update], the round [next_fn] and the
    driving loop of [__main__].

    What is taken from the platform (TensorFlow, Keras, TFF) is written
    out once, in the first part of the file:
    - a [tf.Variable] is a location of a store and holds a tensor; the
      tensors handed around by TFF are values;
    - a float is an exact rational or [NonFinite] (an infinity or NaN):
      rounding and overflow are left out, which is the reading the design
      document itself takes for aggregation;
    - the Keras model is known by the shape of its trainable variables and
      by the gradient of its loss, both parameters of the development. *)

From Stdlib Require Import QArith Qcanon.
From stdpp Require Import base numbers list.

Local Open Scope Qc_scope.

(** ** Numbers *)

Inductive num : Type :=
  | Finite (q : Qc)
  | NonFinite.

#[global] Instance num_eq_dec : EqDecision num.
Proof. solve_decision. Defined.

#[global] Instance num_inhabited : Inhabited num := populate (Finite 0).

Definition Qc_of_nat (n : nat) : Qc := Qc_of_Z (Z.of_nat n).

(** Addition, subtraction and multiplication of floats give a non-finite
    result as soon as one operand is non-finite. *)
Definition lift2 (f : Qc → Qc → Qc) (x y : num) : num :=
  match x, y with
  | Finite a, Finite b => Finite (f a b)
  | _, _ => NonFinite
  end.

Definition add : num → num → num := lift2 Qcplus.
Definition sub : num → num → num := lift2 Qcminus.
Definition mul : num → num → num := lift2 Qcmult.

(** [tf.divide]: a zero divisor gives an infinity or NaN.  A non-finite
    divisor only meets a non-finite dividend in this file (a non-finite
    total weight makes every weighted sum non-finite). *)
Definition div (x y : num) : num :=
  match x, y with
  | Finite a, Finite b => if decide (b = 0) then NonFinite else Finite (a / b)
  | _, _ => NonFinite
  end.

Declare Scope num_scope.
Delimit Scope num_scope with F.
Bind Scope num_scope with num.
Infix "+" := add : num_scope.
Infix "-" := sub : num_scope.
Infix "*" := mul : num_scope.
Infix "/" := div : num_scope.

(** ** Tensors, structures of tensors, shapes *)

(** A tensor is the flat list of its entries; the value of
    [model.trainable_variables] is a list of tensors, one per layer. *)
Abbreviation tensor := (list num).
Abbreviation weights := (list tensor).
Abbreviation shape := (list nat).

Definition shape_of (w : weights) : shape := length <$> w.

Definition zeros (ty : shape) : weights := (λ n, replicate n (Finite 0)) <$> ty.

(** Entry [i] of layer [l]. *)
Definition elem (w : weights) (l i : nat) : num := (w !!! l) !!! i.

Definition structure_add (a b : weights) : weights :=
  zip_with (zip_with add) a b.

Definition structure_scale (a : weights) (c : num) : weights :=
  fmap (M := list) (fmap (M := list) (λ x, (x * c)%F)) a.

Definition structure_divide (a : weights) (c : num) : weights :=
  fmap (M := list) (fmap (M := list) (λ x, (x / c)%F)) a.

(** ** Failures *)

(** The exceptions of the platform that the program can meet:
    [ValueError] from [tf.nest.map_structure] and [Variable.assign] on
    structures or shapes that differ, [RuntimeError] from the federated
    runtime asked for a mean over an empty group.  The program raises
    nothing of its own; the four kinds of the design document's taxonomy
    are listed with them so that the two can be compared.
    [DanglingVariable] completes the model on stores that lack a variable;
    Python cannot build one. *)
Inductive error : Type :=
  | ValueError
  | RuntimeError
  | ConfigurationError
  | ShapeMismatchError
  | AggregationError
  | NumericError
  | DanglingVariable.

Inductive result (A : Type) : Type :=
  | Ok (a : A)
  | Err (e : error).
Arguments Ok {A} a.
Arguments Err {A} e.

#[global] Instance error_eq_dec : EqDecision error.
Proof. solve_decision. Defined.

#[global] Instance result_eq_dec {A} `{EqDecision A} : EqDecision (result A).
Proof. solve_decision. Defined.

(** ** The store of variables and its monad *)

Abbreviation loc := nat.
Abbreviation store := (list tensor).

Definition M (A : Type) : Type := store → result A * store.

Definition ret {A} (a : A) : M A := λ σ, (Ok a, σ).

Definition raise {A} (e : error) : M A := λ σ, (Err e, σ).

Definition bind {A B} (m : M A) (k : A → M B) : M B :=
  λ σ, match m σ with
       | (Ok a, σ') => k a σ'
       | (Err e, σ') => (Err e, σ')
       end.

Notation "x <- m ;; k" := (bind m (λ x, k))
  (at level 100, m at next level, right associativity).

Definition lift {A} (r : result A) : M A := λ σ, (r, σ).

(** [tf.Variable(init)] *)
Definition new_variable (init : tensor) : M loc :=
  λ σ, (Ok (length σ), σ ++ [init]).

(** The value of a variable, where a tensor is expected. *)
Definition read_value (x : loc) : M tensor :=
  λ σ, match σ !! x with
       | Some t => (Ok t, σ)
       | None => (Err DanglingVariable, σ)
       end.

(** [x.assign(y)]: the shapes have to agree. *)
Definition assign (x : loc) (y : tensor) : M unit :=
  λ σ, match σ !! x with
       | Some t =>
           if decide (length t = length y) then (Ok (), <[x:=y]> σ)
           else (Err ValueError, σ)
       | None => (Err DanglingVariable, σ)
       end.

(** The in-place update of the optimizer's kernels. *)
Definition write (x : loc) (y : tensor) : M unit :=
  λ σ, (Ok (), <[x:=y]> σ).

Fixpoint mapM {A B} (f : A → M B) (xs : list A) : M (list B) :=
  match xs with
  | [] => ret []
  | x :: xs' => y <- f x ;; ys <- mapM f xs' ;; ret (y :: ys)
  end.

(** [for x in xs: s = body(x, s)] *)
Fixpoint for_each {A S} (xs : list A) (body : A → S → M S) (s : S) : M S :=
  match xs with
  | [] => ret s
  | x :: xs' => s' <- body x s ;; for_each xs' body s'
  end.

(** [tf.nest.map_structure(f, xs, ys)] on two flat lists: the structures are
    compared first, then [f] runs on the pairs in order. *)
Definition map_structure {A B C} (f : A → B → M C)
    (xs : list A) (ys : list B) : M (list C) :=
  if decide (length xs = length ys)
  then mapM (λ p, f p.1 p.2) (zip xs ys)
  else raise ValueError.

(** ** The Keras optimizer *)

(** [tf.optimizers.SGD(learning_rate, momentum=0.0, nesterov=False)], with
    its momentum slots; the call in [local_train] passes no clipping or
    decay argument, and none is modelled. *)
Record SGD : Type := {
  learning_rate : Qc;
  momentum : Qc;
  nesterov : bool;
  slots : list (loc * tensor)
}.

Definition SGD_new (lr : Qc) : SGD :=
  {| learning_rate := lr; momentum := 0; nesterov := false; slots := [] |}.

Fixpoint get_slot (sl : list (loc * tensor)) (v : loc) (like : tensor) : tensor :=
  match sl with
  | [] => replicate (length like) (Finite 0)
  | (v', a) :: sl' => if decide (v' = v) then a else get_slot sl' v like
  end.

Definition set_slot (opt : SGD) (v : loc) (a : tensor) : SGD :=
  {| learning_rate := learning_rate opt; momentum := momentum opt;
     nesterov := nesterov opt; slots := (v, a) :: slots opt |}.

(** The update of one variable: plain gradient descent when the momentum is
    zero, the Keras momentum kernel otherwise. *)
Definition apply_gradient (opt : SGD) (gv : tensor * loc) : M SGD :=
  let lr := Finite (learning_rate opt) in
  x <- read_value gv.2 ;;
  if decide (0 < momentum opt) then
    let m := Finite (momentum opt) in
    let accum :=
      zip_with (λ a d, (a * m - lr * d)%F) (get_slot (slots opt) gv.2 x) gv.1 in
    let x' :=
      if nesterov opt
      then zip_with add x (zip_with (λ a d, (a * m - lr * d)%F) accum gv.1)
      else zip_with add x accum in
    _ <- write gv.2 x' ;; ret (set_slot opt gv.2 accum)
  else
    _ <- write gv.2 (zip_with (λ p d, (p - lr * d)%F) x gv.1) ;; ret opt.

(** [optimizer.apply_gradients(grads_and_vars)] *)
Definition apply_gradients (opt : SGD) (grads_and_vars : list (tensor * loc)) : M SGD :=
  for_each grads_and_vars (λ gv o, apply_gradient o gv) opt.

(** ** Federated operators *)

(** [tff.federated_broadcast]: one copy of the server's value per client. *)
Definition federated_broadcast {A} (clients : nat) (v : A) : list A :=
  replicate clients v.

(** [tff.federated_map]: the computation runs on each member in turn. *)
Definition federated_map {A B} (f : A → M B) (xs : list A) : M (list B) :=
  mapM f xs.

(** [tff.federated_sum]: the members are added one after the other to the
    zero of the member type. *)
Definition federated_sum (ty : shape) (vs : list weights) : weights :=
  foldl structure_add (zeros ty) vs.

(** [tff.federated_mean(value)]: the sum of the members times [1 / count];
    the runtime refuses an empty group ("Cannot compute a federated mean
    over an empty group"). *)
Definition federated_mean (ty : shape) (vs : list weights) : result weights :=
  let count := length vs in
  if decide (count < 1)%nat then Err RuntimeError
  else Ok (structure_scale (federated_sum ty vs) (Finite (1 / Qc_of_nat count))).

(** [tff.federated_mean(value, weight)], the optional argument that the
    comment in [next_fn] points to and that [next_fn] leaves out: each
    member comes with its weight. *)
Definition federated_weighted_mean (ty : shape) (vws : list (weights * num)) : weights :=
  let sum_of_products := federated_sum ty ((λ p, structure_scale p.1 p.2) <$> vws) in
  let total_weight := foldl add (Finite 0) (snd <$> vws) in
  structure_divide sum_of_products total_weight.

(** ** The program *)

(** The hyperparameters that the functions read from the module. *)
Record Hyper : Type := {
  EPOCHS : nat;
  LEARNING_RATE : Qc
}.

(** [EPOCHS = 5], [LEARNING_RATE = 0.02] *)
Definition base_py : Hyper :=
  {| EPOCHS := 5; LEARNING_RATE := 1 / Qc_of_nat 50 |}.

Record Model : Type := { trainable_variables : list loc }.

Section Program.

(** The type of the model's trainable variables (the entries of each
    layer), the values its initializers give, the batches of a dataset and
    the gradient of the batch loss at entry [i] of layer [l].

    The decorators of [local_train], [global_update] and [next_fn] declare
    [model_weights_type] for their weights, and TFF refuses other arguments
    when the computation is called; where the shape matters, the properties
    below are stated for weights of that type. *)
Variable model_weights_type : shape.
Variable initializer : nat → nat → nat → num.
Variable batch : Type.
Variable loss_gradient : weights → batch → nat → nat → num.
Variable hp : Hyper.

(** The values the initializers of a new model give, by layer and entry;
    [seed] tells the models apart. *)
Definition initial_values (seed : nat) : weights :=
  imap (λ l n, initializer seed l <$> seq 0 n) model_weights_type.

(** [model_tff()]: a new model, hence new variables. *)
Definition model_tff : M Model :=
  λ σ, bind (mapM new_variable (initial_values (length σ)))
         (λ vars, ret {| trainable_variables := vars |}) σ.

(** [model_init] and [init_global_model] *)
Definition model_init : M weights :=
  model <- model_tff ;; mapM read_value (trainable_variables model).

Definition init_global_model : M weights := model_init.

(** [tape.gradient(outputs.loss, local_model_weights)] after the forward
    pass on [batch]: one gradient per variable, of the variable's shape. *)
Definition tape_gradient (values : weights) (b : batch) : weights :=
  imap (λ l t, imap (λ i _, loss_gradient values b l i) t) values.

(** [train]: the variables of the model take the values of the global
    weights, then every epoch goes through the batches of the dataset; the
    values of the variables are returned.  [tf.print(EPOCHS)] writes to the
    console and is left out. *)
Definition train (model : Model) (dataset : list batch)
    (global_model_weights : weights) (optimizer : SGD) : M weights :=
  let local_model_weights := trainable_variables model in
  _ <- map_structure assign local_model_weights global_model_weights ;;
  _ <- for_each (seq 0 (EPOCHS hp)) (λ epoch opt,
         for_each dataset (λ b opt,
           values <- mapM read_value local_model_weights ;;
           let grads := tape_gradient values b in
           apply_gradients opt (zip grads local_model_weights)) opt) optimizer ;;
  mapM read_value local_model_weights.

(** [local_train]: a new model and a new optimizer for every call. *)
Definition local_train (global_model_weights : weights)
    (local_dataset : list batch) : M weights :=
  model <- model_tff ;;
  let optimizer := SGD_new (LEARNING_RATE hp) in
  train model local_dataset global_model_weights optimizer.

(** [global_model_update] and [global_update]: the aggregated weights go
    into the variables of a new model, whose values are returned. *)
Definition global_model_update (model : Model)
    (aggregated_model_weights : weights) : M weights :=
  let global_model_weights := trainable_variables model in
  _ <- map_structure assign global_model_weights aggregated_model_weights ;;
  mapM read_value global_model_weights.

Definition global_update (aggregated_model_weights : weights) : M weights :=
  model <- model_tff ;;
  global_model_update model aggregated_model_weights.

(** [next_fn]: broadcast, local training on every client, mean, update.
    Its argument and its result are the weights of the global model. *)
Definition next_fn (global_model_weights : weights)
    (local_dataset : list (list batch)) : M weights :=
  let model_weights_for_clients :=
    federated_broadcast (length local_dataset) global_model_weights in
  local_model_weights <-
    federated_map (λ p, local_train p.1 p.2)
      (zip model_weights_for_clients local_dataset) ;;
  aggregated_model_weights <-
    lift (federated_mean model_weights_type local_model_weights) ;;
  global_update aggregated_model_weights.

(** The loop of [__main__], without evaluation and plotting:
    [for r in range(ROUNDS): state = next(state, clients_datasets)]. *)
Fixpoint run_rounds (rounds : nat) (state : weights)
    (clients_datasets : list (list batch)) : M weights :=
  match rounds with
  | 0%nat => ret state
  | S r => state' <- next_fn state clients_datasets ;;
           run_rounds r state' clients_datasets
  end.

(** ** The design document's reading of local training *)

(** One step of plain stochastic gradient descent, entry by entry:
    [w[l][i] - lr * gradient[l][i]]. *)
Definition sgd_step (lr : Qc) (w : weights) (b : batch) : weights :=
  imap (λ l t, imap (λ i x, (x - Finite lr * loss_gradient w b l i)%F) t) w.

(** [trainLocal]: epochs outside, the batches in their order inside, one
    step per batch, from a copy of the global weights. *)
Definition trainLocal (globalWeights : weights) (dataset : list batch)
    (epochs : nat) (lr : Qc) : weights :=
  foldl (λ w _, foldl (sgd_step lr) w dataset) globalWeights (seq 1 epochs).

End Program.

(** ** The design document's reading of aggregation *)

Definition sum_over (xs : list num) : num := foldr add (Finite 0) xs.

(** [aggregated[i] = (1/N) * sum over c of localResults[c][i]] *)
Definition combine_mean (ty : shape) (localResults : list weights) : weights :=
  let N := length localResults in
  imap (λ l n,
          (λ i, (Finite (1 / Qc_of_nat N)
                 * sum_over ((λ v, elem v l i) <$> localResults))%F)
          <$> seq 0 n) ty.

(** ** Small instances *)

(** A float with an integer value. *)
Definition q (z : Z) : num := Finite (Qc_of_Z z).

(** A model with one layer of two entries, whose initializers give 7. *)
Definition two_entries : shape := [2%nat].
Definition sevens : nat → nat → nat → num := λ _ _ _, q 7.

(** A loss whose gradient is [g] everywhere. *)
Definition constant_gradient (g : num) : weights → unit → nat → nat → num :=
  λ _ _ _ _, g.

(** Two kinds of batches: on [true] the gradient of entry 0 is not finite,
    on [false] the gradient is [0, 1]. *)
Definition diverging_gradient : weights → bool → nat → nat → num :=
  λ _ b _ i,
    if b then (if decide (i = 0%nat) then NonFinite else q 0)
    else (if decide (i = 0%nat) then q 0 else q 1).

(** A model whose only variable is the first of the store. *)
Definition first_variable : Model := {| trainable_variables := [0%nat] |}.


(** [EPOCHS = 1], [LEARNING_RATE = 0.1] *)
Definition one_epoch : Hyper :=
  {| EPOCHS := 1; LEARNING_RATE := 1 / Qc_of_nat 10 |}.

(** The gradient is not finite at the entries that are 0, and 1 at the
    others. *)
Definition gradient_diverging_at_zero : weights → unit → nat → nat → num :=
  λ w _ l i, if decide (elem w l i = q 0) then NonFinite else q 1.

(** ** Rounding *)






(** ** What a computation leaves alone *)

(** From [σ] to [σ'] no variable is lost, and the variables outside [P]
    keep their value. *)
Definition preserves (P : loc → Prop) (σ σ' : store) : Prop :=
  (length σ ≤ length σ')%nat ∧
  ∀ l, (l < length σ)%nat → ¬ P l → σ' !! l = σ !! l.

(** [m] assigns to no existing variable but those of [L]. *)
Definition frame {A} (L : list loc) (m : M A) : Prop :=
  ∀ σ, preserves (λ l, l ∈ L) σ (m σ).2.

(** [m] fails with the errors of [E] only. *)
Definition fails_within {A} (E : list error) (m : M A) : Prop :=
  ∀ σ e, (m σ).1 = Err e → e ∈ E.

(** * Properties *)

(** ** Numbers *)

Lemma add_comm (x y : num) : (x + y)%F = (y + x)%F.
Proof. destruct x, y; simpl; try done. by rewrite Qcplus_comm. Qed.

Lemma add_assoc (x y z : num) : (x + (y + z))%F = (x + y + z)%F.
Proof. destruct x, y, z; simpl; try done. by rewrite Qcplus_assoc. Qed.

Lemma mul_comm (x y : num) : (x * y)%F = (y * x)%F.
Proof. destruct x, y; simpl; try done. by rewrite Qcmult_comm. Qed.

Lemma add_swap (a x y : num) : (a + x + y)%F = (a + y + x)%F.
Proof. by rewrite <-!add_assoc, (add_comm x y). Qed.

Lemma Qc_of_nat_0 : Qc_of_nat 0 = 0.
Proof. by apply Qc_is_canon. Qed.

Lemma Qc_of_nat_S (n : nat) : Qc_of_nat (S n) = Qc_of_nat n + 1.
Proof.
  unfold Qc_of_nat. rewrite Nat2Z.inj_succ, <-Z.add_1_r.
  apply Qc_is_canon. simpl. rewrite !Qred_correct.
  unfold Qeq. simpl. lia.
Qed.

Lemma Qc_of_nat_pos (n : nat) : 0 < Qc_of_nat (S n).
Proof.
  unfold Qc_of_nat, Qclt, Qlt. simpl. lia.
Qed.

Lemma Qc_of_nat_nonzero (n : nat) : (1 ≤ n)%nat → Qc_of_nat n ≠ 0.
Proof.
  destruct n as [|n]; [lia|]. intros _ H.
  pose proof (Qc_of_nat_pos n) as Hp. rewrite H in Hp.
  by apply Qclt_not_eq in Hp.
Qed.

(** ** The monad *)

Lemma bind_Ok {A B} (m : M A) (k : A → M B) σ a σ' :
  m σ = (Ok a, σ') → bind m k σ = k a σ'.
Proof. unfold bind. by intros ->. Qed.

(** ** Structures, entry by entry *)

Lemma shape_of_length (w : weights) : length (shape_of w) = length w.
Proof. unfold shape_of. by rewrite length_fmap. Qed.

Lemma shape_of_lookup (w : weights) (l : nat) :
  shape_of w !! l = length <$> w !! l.
Proof. unfold shape_of. by rewrite list_lookup_fmap. Qed.

Lemma elem_lookup (w : weights) l i t x :
  w !! l = Some t → t !! i = Some x → elem w l i = x.
Proof.
  intros Hl Hi. unfold elem.
  by rewrite (list_lookup_total_correct _ _ _ Hl), (list_lookup_total_correct _ _ _ Hi).
Qed.

(** Two structures of one shape with the same entries are equal. *)
Lemma weights_ext (ty : shape) (w1 w2 : weights) :
  shape_of w1 = ty → shape_of w2 = ty →
  (∀ l n i, ty !! l = Some n → (i < n)%nat → elem w1 l i = elem w2 l i) →
  w1 = w2.
Proof.
  intros H1 H2 Hel. apply list_eq. intros l.
  pose proof (shape_of_lookup w1 l) as E1. pose proof (shape_of_lookup w2 l) as E2.
  rewrite H1 in E1. rewrite H2 in E2.
  destruct (w1 !! l) as [t1|] eqn:L1, (w2 !! l) as [t2|] eqn:L2;
    simpl in *; try congruence.
  f_equal. apply list_eq. intros i.
  assert (length t2 = length t1) as Hlen by congruence.
  destruct (t1 !! i) as [x1|] eqn:I1.
  - pose proof (lookup_lt_Some _ _ _ I1) as Hlt.
    destruct (lookup_lt_is_Some_2 t2 i) as [x2 I2]; [lia|].
    rewrite I2. f_equal.
    rewrite <-(elem_lookup w1 l i t1 x1), <-(elem_lookup w2 l i t2 x2) by done.
    by apply (Hel l (length t1) i).
  - symmetry. apply lookup_ge_None. apply lookup_ge_None in I1. lia.
Qed.

Lemma elem_in_range (ty : shape) (w : weights) l n i :
  shape_of w = ty → ty !! l = Some n → (i < n)%nat →
  ∃ t x, w !! l = Some t ∧ length t = n ∧ t !! i = Some x ∧ elem w l i = x.
Proof.
  intros Hs Hl Hi. rewrite <-Hs, shape_of_lookup in Hl.
  destruct (w !! l) as [t|] eqn:L; simplify_eq/=.
  destruct (lookup_lt_is_Some_2 t i Hi) as [x I].
  exists t, x. eauto using elem_lookup.
Qed.

Lemma tabulate_shape (ty : shape) (F : nat → nat → num) :
  shape_of (imap (λ l n, F l <$> seq 0 n) ty) = ty.
Proof.
  apply list_eq. intros l. rewrite shape_of_lookup, list_lookup_imap.
  destruct (ty !! l) as [n|]; simpl; [|done].
  by rewrite length_fmap, length_seq.
Qed.

Lemma tabulate_elem (ty : shape) (F : nat → nat → num) l n i :
  ty !! l = Some n → (i < n)%nat →
  elem (imap (λ l n, F l <$> seq 0 n) ty) l i = F l i.
Proof.
  intros Hl Hi. apply (elem_lookup _ l i (F l <$> seq 0 n)).
  - by rewrite list_lookup_imap, Hl.
  - by rewrite list_lookup_fmap, lookup_seq_lt.
Qed.

Lemma imap2_shape (f : nat → nat → num → num) (w : weights) :
  shape_of (imap (λ l t, imap (f l) t) w) = shape_of w.
Proof.
  apply list_eq. intros l. rewrite !shape_of_lookup, list_lookup_imap.
  destruct (w !! l) as [t|]; simpl; [|done]. by rewrite length_imap.
Qed.

Lemma imap2_elem (ty : shape) (f : nat → nat → num → num) (w : weights) l n i :
  shape_of w = ty → ty !! l = Some n → (i < n)%nat →
  elem (imap (λ l t, imap (f l) t) w) l i = f l i (elem w l i).
Proof.
  intros Hs Hl Hi.
  destruct (elem_in_range ty w l n i Hs Hl Hi) as (t & x & L & _ & I & ->).
  apply (elem_lookup _ l i (imap (f l) t)).
  - by rewrite list_lookup_imap, L.
  - by rewrite list_lookup_imap, I.
Qed.

Lemma zeros_shape (ty : shape) : shape_of (zeros ty) = ty.
Proof.
  unfold zeros, shape_of. rewrite <-list_fmap_compose.
  rewrite <-(list_fmap_id ty) at 2. apply list_fmap_ext.
  intros _ n _. simpl. by rewrite length_replicate.
Qed.

Lemma zeros_elem (ty : shape) l n i :
  ty !! l = Some n → (i < n)%nat → elem (zeros ty) l i = Finite 0.
Proof.
  intros Hl Hi. apply (elem_lookup _ l i (replicate n (Finite 0))).
  - unfold zeros. by rewrite list_lookup_fmap, Hl.
  - by apply lookup_replicate_2.
Qed.

Lemma structure_add_shape (ty : shape) (a b : weights) :
  shape_of a = ty → shape_of b = ty → shape_of (structure_add a b) = ty.
Proof.
  intros Ha Hb. apply list_eq. intros l.
  pose proof (shape_of_lookup a l) as Ea. pose proof (shape_of_lookup b l) as Eb.
  rewrite Ha in Ea. rewrite Hb in Eb.
  rewrite shape_of_lookup. unfold structure_add. rewrite lookup_zip_with.
  destruct (a !! l) as [ta|], (b !! l) as [tb|]; simpl in *; try congruence.
  rewrite length_zip_with. rewrite Ea. f_equal.
  assert (length ta = length tb) by congruence. lia.
Qed.

Lemma structure_add_elem (ty : shape) (a b : weights) l n i :
  shape_of a = ty → shape_of b = ty → ty !! l = Some n → (i < n)%nat →
  elem (structure_add a b) l i = (elem a l i + elem b l i)%F.
Proof.
  intros Ha Hb Hl Hi.
  destruct (elem_in_range ty a l n i Ha Hl Hi) as (ta & x & La & _ & Ia & ->).
  destruct (elem_in_range ty b l n i Hb Hl Hi) as (tb & y & Lb & _ & Ib & ->).
  apply (elem_lookup _ l i (zip_with add ta tb)).
  - unfold structure_add. by rewrite lookup_zip_with, La, Lb.
  - by rewrite lookup_zip_with, Ia, Ib.
Qed.

Lemma fmap2_shape (f : num → num) (a : weights) :
  shape_of (fmap (M := list) (fmap (M := list) f) a) = shape_of a.
Proof.
  unfold shape_of. rewrite <-list_fmap_compose. apply list_fmap_ext.
  intros _ t _. simpl. by rewrite length_fmap.
Qed.

Lemma fmap2_elem (ty : shape) (f : num → num) (a : weights) l n i :
  shape_of a = ty → ty !! l = Some n → (i < n)%nat →
  elem (fmap (M := list) (fmap (M := list) f) a) l i = f (elem a l i).
Proof.
  intros Ha Hl Hi.
  destruct (elem_in_range ty a l n i Ha Hl Hi) as (t & x & L & _ & I & ->).
  apply (elem_lookup _ l i (f <$> t)).
  - by rewrite list_lookup_fmap, L.
  - by rewrite list_lookup_fmap, I.
Qed.

(** ** Aggregation *)

Lemma sum_over_snoc (xs : list num) (y : num) :
  sum_over (xs ++ [y]) = (sum_over xs + y)%F.
Proof.
  unfold sum_over. induction xs as [|x xs IH]; cbn [foldr app].
  - apply add_comm.
  - by rewrite IH, add_assoc.
Qed.

Lemma sum_over_replicate_Finite (n : nat) (q : Qc) :
  sum_over (replicate n (Finite q)) = Finite (Qc_of_nat n * q).
Proof.
  induction n as [|n IH].
  - by rewrite Qc_of_nat_0, Qcmult_0_l.
  - change (sum_over (replicate (S n) (Finite q)))
      with (Finite q + sum_over (replicate n (Finite q)))%F.
    rewrite IH, Qc_of_nat_S. simpl. f_equal. ring.
Qed.

Lemma mean_replicate (n : nat) (x : num) :
  (1 ≤ n)%nat →
  (Finite (1 / Qc_of_nat n) * sum_over (replicate n x))%F = x.
Proof.
  intros Hn. destruct x as [q|].
  - rewrite sum_over_replicate_Finite. simpl. f_equal.
    field. by apply Qc_of_nat_nonzero.
  - destruct n as [|n]; [lia|]. done.
Qed.

Lemma federated_sum_snoc (ty : shape) (vs : list weights) (v : weights) :
  federated_sum ty (vs ++ [v]) = structure_add (federated_sum ty vs) v.
Proof. unfold federated_sum. by rewrite foldl_app. Qed.

Lemma federated_sum_entries (ty : shape) (vs : list weights) :
  Forall (λ v, shape_of v = ty) vs →
  shape_of (federated_sum ty vs) = ty ∧
  ∀ l n i, ty !! l = Some n → (i < n)%nat →
    elem (federated_sum ty vs) l i = sum_over ((λ v, elem v l i) <$> vs).
Proof.
  induction vs as [|v vs IH] using rev_ind; intros Hall.
  - split; [apply zeros_shape|]. intros l n i Hl Hi. by apply (zeros_elem ty l n i).
  - apply Forall_app in Hall as [Hvs Hv]. rewrite Forall_singleton in Hv.
    destruct (IH Hvs) as [Hsh Hel]. rewrite federated_sum_snoc. split.
    + by apply structure_add_shape.
    + intros l n i Hl Hi.
      rewrite (structure_add_elem ty) with (n := n) by done.
      rewrite fmap_app, list_fmap_singleton, sum_over_snoc.
      by rewrite (Hel l n i).
Qed.

Lemma combine_mean_shape (ty : shape) (vs : list weights) :
  shape_of (combine_mean ty vs) = ty.
Proof. apply tabulate_shape. Qed.

Lemma combine_mean_elem (ty : shape) (vs : list weights) l n i :
  ty !! l = Some n → (i < n)%nat →
  elem (combine_mean ty vs) l i =
    (Finite (1 / Qc_of_nat (length vs)) * sum_over ((λ v, elem v l i) <$> vs))%F.
Proof.
  intros Hl Hi. unfold combine_mean.
  by rewrite (tabulate_elem ty
    (λ l i, (Finite (1 / Qc_of_nat (length vs))
             * sum_over ((λ v, elem v l i) <$> vs))%F) l n i).
Qed.

(** On a non-empty group of one shape the federated mean is the mean of the
    design document. *)
Lemma federated_mean_combine (ty : shape) (vs : list weights) :
  vs ≠ [] → Forall (λ v, shape_of v = ty) vs →
  federated_mean ty vs = Ok (combine_mean ty vs).
Proof.
  intros Hne Hall. unfold federated_mean.
  destruct vs as [|v0 vs0]; [done|]. set (vs := v0 :: vs0) in *.
  rewrite decide_False by (simpl; lia). f_equal.
  destruct (federated_sum_entries ty vs Hall) as [Hsh Hel].
  apply (weights_ext ty).
  - unfold structure_scale. by rewrite fmap2_shape.
  - apply combine_mean_shape.
  - intros l n i Hl Hi. unfold structure_scale.
    rewrite (fmap2_elem ty) with (n := n) by done.
    rewrite (combine_mean_elem ty vs l n i) by done.
    by rewrite (Hel l n i), mul_comm.
Qed.

(** The mean of [n] copies of a structure is the structure. *)
Lemma combine_mean_replicate (ty : shape) (n : nat) (w : weights) :
  (1 ≤ n)%nat → shape_of w = ty → combine_mean ty (replicate n w) = w.
Proof.
  intros Hn Hw. apply (weights_ext ty); [apply combine_mean_shape|done|].
  intros l k i Hl Hi. rewrite (combine_mean_elem ty _ l k i) by done.
  rewrite length_replicate, fmap_replicate. by apply mean_replicate.
Qed.

(** A left fold does not depend on the order of the list when the steps
    commute. *)
Lemma foldl_Permutation {A B} (f : A → B → A) (l l' : list B) :
  (∀ a x y, f (f a x) y = f (f a y) x) →
  l ≡ₚ l' → ∀ a, foldl f a l = foldl f a l'.
Proof.
  intros Hf Hp. induction Hp as [|x l l' _ IH|x y l|l l' l'' _ IH1 _ IH2]; intros a; simpl.
  - done.
  - apply IH.
  - by rewrite Hf.
  - by rewrite IH1, IH2.
Qed.

Lemma zip_with_swap {A} (f : A → A → A) :
  (∀ a x y, f (f a x) y = f (f a y) x) →
  ∀ a x y : list A,
    zip_with f (zip_with f a x) y = zip_with f (zip_with f a y) x.
Proof.
  intros Hf a. induction a as [|a0 a IH]; intros [|x0 x] [|y0 y]; simpl; try done.
  by rewrite Hf, IH.
Qed.

Lemma structure_add_swap (a x y : weights) :
  structure_add (structure_add a x) y = structure_add (structure_add a y) x.
Proof.
  unfold structure_add. apply zip_with_swap.
  intros. apply zip_with_swap. apply add_swap.
Qed.

Lemma federated_sum_Permutation (ty : shape) (vs vs' : list weights) :
  vs ≡ₚ vs' → federated_sum ty vs = federated_sum ty vs'.
Proof.
  intros Hp. unfold federated_sum.
  by apply foldl_Permutation; [apply structure_add_swap|].
Qed.

(** ** Variables laid out in a block of the store *)

Lemma mapM_new_variable (ts : list tensor) (σ : store) :
  mapM new_variable ts σ = (Ok (seq (length σ) (length ts)), σ ++ ts).
Proof.
  revert σ. induction ts as [|t ts IH]; intros σ; simpl.
  - by rewrite app_nil_r.
  - unfold bind at 1. unfold new_variable at 1.
    unfold bind at 1. rewrite IH. unfold ret.
    rewrite length_app, <-app_assoc. simpl.
    by rewrite Nat.add_1_r.
Qed.

Lemma read_block (w : weights) (pre : store) :
  mapM read_value (seq (length pre) (length w)) (pre ++ w) = (Ok w, pre ++ w).
Proof.
  revert pre. induction w as [|t w IH]; intros pre; simpl; [done|].
  unfold bind at 1. unfold read_value at 1.
  rewrite list_lookup_middle by done.
  unfold bind at 1.
  specialize (IH (pre ++ [t])).
  rewrite length_app, <-app_assoc in IH. simpl in IH.
  rewrite Nat.add_1_r in IH. by rewrite IH.
Qed.

Lemma insert_block_head (pre : store) (t g : tensor) (w : weights) :
  <[length pre:=g]> (pre ++ t :: w) = (pre ++ [g]) ++ w.
Proof.
  rewrite insert_app_r_alt by lia. rewrite Nat.sub_diag. simpl.
  by rewrite <-app_assoc.
Qed.

Lemma assign_block (gw w : weights) (pre : store) :
  shape_of gw = shape_of w →
  ∃ us, map_structure assign (seq (length pre) (length w)) gw (pre ++ w)
        = (Ok us, pre ++ gw).
Proof.
  intros Hs. unfold map_structure.
  assert (length gw = length w) as Hlen
    by (by rewrite <-(shape_of_length gw), Hs, shape_of_length).
  rewrite decide_True by (by rewrite length_seq).
  clear Hlen. revert gw pre Hs.
  induction w as [|t w IH]; intros [|g gw] pre Hs; simplify_eq/=.
  - by eexists.
  - unfold bind at 1. unfold assign at 1. simpl.
    rewrite list_lookup_middle by done.
    rewrite decide_True by done.
    rewrite insert_block_head.
    destruct (IH gw (pre ++ [g])) as [us Hus]; [done|].
    rewrite length_app, Nat.add_1_r in Hus. simpl in Hus.
    unfold bind at 1. rewrite Hus. rewrite <-app_assoc. by eexists.
Qed.

Lemma apply_gradients_block (opt : SGD) (g w : weights) (pre : store) :
  ¬ 0 < momentum opt → length g = length w →
  apply_gradients opt (zip g (seq (length pre) (length w))) (pre ++ w)
  = (Ok opt,
     pre ++ zip_with
              (zip_with (λ p d, (p - Finite (learning_rate opt) * d)%F)) w g).
Proof.
  intros Hm. unfold apply_gradients. revert g pre.
  induction w as [|t w IH]; intros [|d g] pre Hlen; simplify_eq/=; [done|].
  unfold bind at 1. unfold apply_gradient at 1. simpl.
  unfold bind at 1. unfold read_value at 1.
  rewrite list_lookup_middle by done.
  rewrite decide_False by done.
  unfold bind at 1. unfold write at 1. unfold ret at 1.
  rewrite insert_block_head.
  specialize (IH g (pre ++ [zip_with (λ p d0, (p - Finite (learning_rate opt) * d0)%F) t d])).
  rewrite length_app, Nat.add_1_r in IH. simpl in IH.
  rewrite IH by done. by rewrite <-app_assoc.
Qed.

Lemma zip_with_imap {A B C} (f : A → B → C) (g : nat → A → B) (t : list A) :
  zip_with f t (imap g t) = imap (λ i x, f x (g i x)) t.
Proof.
  revert g. induction t as [|x t IH]; intros g; simpl; [done|].
  f_equal. apply IH.
Qed.

Lemma foldl_ignore {A B C} (F : A → A) (es : list B) (es' : list C) (a : A) :
  length es = length es' →
  foldl (λ w _, F w) a es = foldl (λ w _, F w) a es'.
Proof.
  revert es' a. induction es as [|e es IH]; intros [|e' es'] a Hlen;
    simplify_eq/=; [done|]. by apply IH.
Qed.

Lemma foldl_epochs_app {A} (F : A → A) (a b : nat) (w : A) :
  foldl (λ w _, F w) w (seq 1 (a + b))
  = foldl (λ w _, F w) (foldl (λ w _, F w) w (seq 1 a)) (seq 1 b).
Proof.
  rewrite seq_app, foldl_app.
  apply foldl_ignore. by rewrite !length_seq.
Qed.

(** ** Local training *)

Section Training.

Variable model_weights_type : shape.
Variable initializer : nat → nat → nat → num.
Variable batch : Type.
Variable loss_gradient : weights → batch → nat → nat → num.
Variable hp : Hyper.

Local Abbreviation model_tff' := (model_tff model_weights_type initializer).
Local Abbreviation initial_values' := (initial_values model_weights_type initializer).
Local Abbreviation tape_gradient' := (tape_gradient batch loss_gradient).
Local Abbreviation sgd_step' := (sgd_step batch loss_gradient).
Local Abbreviation trainLocal' := (trainLocal batch loss_gradient).
Local Abbreviation train' := (train batch loss_gradient hp).
Local Abbreviation local_train' :=
  (local_train model_weights_type initializer batch loss_gradient hp).

Lemma initial_values_shape (seed : nat) :
  shape_of (initial_values' seed) = model_weights_type.
Proof. apply tabulate_shape. Qed.

Lemma model_tff_run (σ : store) :
  model_tff' σ
  = (Ok {| trainable_variables :=
             seq (length σ) (length (initial_values' (length σ))) |},
     σ ++ initial_values' (length σ)).
Proof.
  unfold model_tff, bind. by rewrite mapM_new_variable.
Qed.

(** The update that [apply_gradients] makes with the gradients of the
    tape is the plain step. *)
Lemma tape_step (lr : Qc) (w : weights) (b : batch) :
  zip_with (zip_with (λ p d, (p - Finite lr * d)%F)) w (tape_gradient' w b)
  = sgd_step' lr w b.
Proof.
  unfold tape_gradient, sgd_step.
  rewrite zip_with_imap. apply imap_ext. intros l t _. simpl.
  by rewrite zip_with_imap.
Qed.

Lemma sgd_step_shape (lr : Qc) (w : weights) (b : batch) :
  shape_of (sgd_step' lr w b) = shape_of w.
Proof.
  apply (imap2_shape (λ l i x, (x - Finite lr * loss_gradient w b l i)%F)).
Qed.

Lemma sgd_step_elem (lr : Qc) (w : weights) (b : batch) l n i :
  shape_of w !! l = Some n → (i < n)%nat →
  elem (sgd_step' lr w b) l i
  = (elem w l i - Finite lr * loss_gradient w b l i)%F.
Proof.
  intros Hl Hi.
  by apply (imap2_elem (shape_of w)
              (λ l i x, (x - Finite lr * loss_gradient w b l i)%F) w l n i).
Qed.

Lemma epoch_shape (lr : Qc) (ds : list batch) (w : weights) :
  shape_of (foldl (sgd_step' lr) w ds) = shape_of w.
Proof.
  revert w. induction ds as [|b ds IH]; intros w; simpl; [done|].
  by rewrite IH, sgd_step_shape.
Qed.

Lemma trainLocal_shape (gw : weights) (ds : list batch) (epochs : nat) (lr : Qc) :
  shape_of (trainLocal' gw ds epochs lr) = shape_of gw.
Proof.
  unfold trainLocal. generalize (seq 1 epochs). intros es.
  revert gw. induction es as [|e es IH]; intros gw; simpl; [done|].
  by rewrite IH, epoch_shape.
Qed.

Lemma length_shape (w w' : weights) :
  shape_of w = shape_of w' → length w = length w'.
Proof. intros H. by rewrite <-(shape_of_length w), H, shape_of_length. Qed.

(** One pass over the batches, on a model whose variables are the block
    after [pre]. *)
Lemma epoch_block (opt : SGD) (ds : list batch) (n : nat) (w : weights) (pre : store) :
  ¬ 0 < momentum opt → length w = n →
  for_each ds (λ b opt,
      values <- mapM read_value (seq (length pre) n) ;;
      apply_gradients opt (zip (tape_gradient' values b) (seq (length pre) n)))
    opt (pre ++ w)
  = (Ok opt, pre ++ foldl (sgd_step' (learning_rate opt)) w ds).
Proof.
  intros Hm. revert w. induction ds as [|b ds IH]; intros w Hn; simpl; [done|].
  unfold bind at 1. unfold bind at 1.
  pose proof (read_block w pre) as Hr. rewrite Hn in Hr. rewrite Hr.
  pose proof (apply_gradients_block opt (tape_gradient' w b) w pre Hm) as Ha.
  rewrite Hn in Ha.
  rewrite Ha by (unfold tape_gradient; by rewrite length_imap).
  rewrite tape_step. apply IH.
  rewrite <-Hn. apply length_shape, sgd_step_shape.
Qed.

Lemma epochs_block {E} (opt : SGD) (es : list E) (ds : list batch) (n : nat)
    (w : weights) (pre : store) :
  ¬ 0 < momentum opt → length w = n →
  for_each es (λ _ opt,
      for_each ds (λ b opt,
          values <- mapM read_value (seq (length pre) n) ;;
          apply_gradients opt (zip (tape_gradient' values b) (seq (length pre) n)))
        opt)
    opt (pre ++ w)
  = (Ok opt,
     pre ++ foldl (λ w _, foldl (sgd_step' (learning_rate opt)) w ds) w es).
Proof.
  intros Hm. revert w. induction es as [|e es IH]; intros w Hn; simpl; [done|].
  unfold bind at 1. rewrite (epoch_block opt ds n w pre) by done.
  apply IH. rewrite <-Hn. apply length_shape, epoch_shape.
Qed.

(** [train] on a model whose variables are the block after [pre]. *)
Lemma train_block (opt : SGD) (ds : list batch) (gw w0 : weights) (pre : store) :
  ¬ 0 < momentum opt → shape_of gw = shape_of w0 →
  train' {| trainable_variables := seq (length pre) (length w0) |} ds gw opt
    (pre ++ w0)
  = (Ok (trainLocal' gw ds (EPOCHS hp) (learning_rate opt)),
     pre ++ trainLocal' gw ds (EPOCHS hp) (learning_rate opt)).
Proof.
  intros Hm Hs. unfold train. simpl.
  destruct (assign_block gw w0 pre Hs) as [us Hus].
  unfold bind at 1. rewrite Hus.
  unfold bind at 1.
  rewrite (epochs_block opt (seq 0 (EPOCHS hp)) ds (length w0) gw pre)
    by (done || by apply length_shape).
  rewrite (foldl_ignore _ (seq 0 (EPOCHS hp)) (seq 1 (EPOCHS hp)))
    by (by rewrite !length_seq).
  fold (trainLocal' gw ds (EPOCHS hp) (learning_rate opt)).
  rewrite <-(length_shape gw w0 Hs).
  rewrite <-(length_shape _ _ (trainLocal_shape gw ds (EPOCHS hp) (learning_rate opt))).
  apply read_block.
Qed.

Lemma SGD_new_plain (lr : Qc) : ¬ 0 < momentum (SGD_new lr).
Proof. simpl. intros H. by apply Qclt_not_eq in H. Qed.

(** *** Frames *)

Lemma preserves_refl (P : loc → Prop) (σ : store) : preserves P σ σ.
Proof. by split. Qed.

Lemma preserves_trans (P : loc → Prop) (σ1 σ2 σ3 : store) :
  preserves P σ1 σ2 → preserves P σ2 σ3 → preserves P σ1 σ3.
Proof.
  intros [Hl1 H1] [Hl2 H2]. split; [lia|].
  intros l Hl HP. rewrite H2 by (lia || done). by apply H1.
Qed.

Lemma preserves_insert (P : loc → Prop) (σ : store) (x : loc) (y : tensor) :
  P x → preserves P σ (<[x:=y]> σ).
Proof.
  intros Hx. split; [by rewrite length_insert|].
  intros l _ HP. apply list_lookup_insert_ne. by intros ->.
Qed.

Lemma preserves_take (σ σ' : store) :
  preserves (λ l, l ∈ @nil loc) σ σ' → take (length σ) σ' = σ.
Proof.
  intros [Hlen H]. apply list_eq. intros l.
  destruct (decide (l < length σ)%nat) as [Hl|Hl].
  - rewrite lookup_take_lt by done. apply H; [done|]. apply not_elem_of_nil.
  - rewrite lookup_take_ge by lia. symmetry. apply lookup_ge_None. lia.
Qed.

Lemma frame_ret {A} (L : list loc) (a : A) : frame L (ret a).
Proof. intros σ. apply preserves_refl. Qed.

Lemma frame_lift {A} (L : list loc) (r : result A) : frame L (lift r).
Proof. intros σ. apply preserves_refl. Qed.

Lemma frame_raise {A} (L : list loc) (e : error) : frame L (raise (A := A) e).
Proof. intros σ. apply preserves_refl. Qed.

Lemma frame_bind {A B} (L : list loc) (m : M A) (k : A → M B) :
  frame L m → (∀ a, frame L (k a)) → frame L (bind m k).
Proof.
  intros Hm Hk σ. unfold bind. specialize (Hm σ).
  destruct (m σ) as [[a|e] σ1]; simpl in *; [|done].
  eapply preserves_trans; [done|]. apply Hk.
Qed.

Lemma frame_read_value (L : list loc) (x : loc) : frame L (read_value x).
Proof.
  intros σ. unfold read_value. destruct (σ !! x); apply preserves_refl.
Qed.

Lemma frame_assign (L : list loc) (x : loc) (y : tensor) :
  x ∈ L → frame L (assign x y).
Proof.
  intros Hx σ. unfold assign. destruct (σ !! x); [|apply preserves_refl].
  case_decide; [|apply preserves_refl]. by apply preserves_insert.
Qed.

Lemma frame_write (L : list loc) (x : loc) (y : tensor) :
  x ∈ L → frame L (write x y).
Proof. intros Hx σ. by apply preserves_insert. Qed.

Lemma frame_mapM {A B} (L : list loc) (f : A → M B) (xs : list A) :
  (∀ x, x ∈ xs → frame L (f x)) → frame L (mapM f xs).
Proof.
  induction xs as [|x xs IH]; intros Hf; simpl; [apply frame_ret|].
  apply frame_bind; [apply Hf; left|]. intros y.
  apply frame_bind; [|intros; apply frame_ret].
  apply IH. intros x' Hx'. apply Hf. by right.
Qed.

Lemma frame_for_each {A S} (L : list loc) (xs : list A) (body : A → S → M S) :
  (∀ x s, x ∈ xs → frame L (body x s)) → ∀ s, frame L (for_each xs body s).
Proof.
  induction xs as [|x xs IH]; intros Hb s; simpl; [apply frame_ret|].
  apply frame_bind; [apply Hb; left|]. intros s'.
  apply IH. intros x' s'' Hx'. apply Hb. by right.
Qed.

Lemma frame_map_structure_assign (vars : list loc) (ys : weights) :
  frame vars (map_structure assign vars ys).
Proof.
  unfold map_structure. case_decide; [|apply frame_raise].
  apply frame_mapM. intros [x y] Hxy. apply frame_assign.
  simpl. by apply elem_of_zip_l in Hxy.
Qed.

Lemma frame_apply_gradient (L : list loc) (opt : SGD) (gv : tensor * loc) :
  gv.2 ∈ L → frame L (apply_gradient opt gv).
Proof.
  intros Hv. unfold apply_gradient.
  apply frame_bind; [apply frame_read_value|]. intros x.
  case_decide.
  - apply frame_bind; [by apply frame_write|]. intros; apply frame_ret.
  - apply frame_bind; [by apply frame_write|]. intros; apply frame_ret.
Qed.

Lemma frame_apply_gradients (opt : SGD) (gs : weights) (vars : list loc) :
  frame vars (apply_gradients opt (zip gs vars)).
Proof.
  unfold apply_gradients. apply frame_for_each.
  intros [g v] o Hgv. apply frame_apply_gradient.
  simpl. by apply elem_of_zip_r in Hgv.
Qed.

(** [train] assigns to the variables of its model and to nothing else. *)
Lemma frame_train (model : Model) (ds : list batch) (gw : weights) (opt : SGD) :
  frame (trainable_variables model) (train' model ds gw opt).
Proof.
  unfold train.
  apply frame_bind; [apply frame_map_structure_assign|]. intros _.
  apply frame_bind; [|intros; apply frame_mapM; intros; apply frame_read_value].
  apply frame_for_each. intros epoch o _.
  apply frame_for_each. intros b o' _.
  apply frame_bind; [apply frame_mapM; intros; apply frame_read_value|].
  intros values. apply frame_apply_gradients.
Qed.

(** A computation that works on the variables of a model of its own
    leaves every variable that existed before as it was. *)
Lemma frame_fresh_model {A} (k : Model → M A) :
  (∀ model, frame (trainable_variables model) (k model)) →
  frame [] (bind model_tff' k).
Proof.
  intros Hk σ. rewrite (bind_Ok _ _ _ _ _ (model_tff_run σ)).
  match goal with |- context [k ?m] => specialize (Hk m (σ ++ initial_values' (length σ))) end.
  simpl in Hk. destruct Hk as [Hlen Hk]. rewrite length_app in Hlen.
  split; [lia|]. intros l Hl _.
  rewrite Hk.
  - by apply lookup_app_l.
  - rewrite length_app. lia.
  - rewrite elem_of_seq. lia.
Qed.

Lemma frame_local_train (gw : weights) (ds : list batch) :
  frame [] (local_train' gw ds).
Proof.
  unfold local_train. apply frame_fresh_model. intros model. apply frame_train.
Qed.

Lemma frame_global_update (w : weights) :
  frame [] (global_update model_weights_type initializer w).
Proof.
  unfold global_update. apply frame_fresh_model. intros model.
  unfold global_model_update.
  apply frame_bind; [apply frame_map_structure_assign|]. intros _.
  apply frame_mapM. intros; apply frame_read_value.
Qed.

Lemma frame_next_fn (gw : weights) (ds : list (list batch)) :
  frame [] (next_fn model_weights_type initializer batch loss_gradient hp gw ds).
Proof.
  unfold next_fn, federated_map.
  apply frame_bind; [apply frame_mapM; intros; apply frame_local_train|].
  intros locals. apply frame_bind; [apply frame_lift|].
  intros agg. apply frame_global_update.
Qed.

(** *** The program on a store *)

Lemma local_train_run (gw : weights) (ds : list batch) (σ : store) :
  shape_of gw = model_weights_type →
  local_train' gw ds σ
  = (Ok (trainLocal' gw ds (EPOCHS hp) (LEARNING_RATE hp)),
     σ ++ trainLocal' gw ds (EPOCHS hp) (LEARNING_RATE hp)).
Proof.
  intros Hs. unfold local_train.
  rewrite (bind_Ok _ _ _ _ _ (model_tff_run σ)).
  apply (train_block (SGD_new (LEARNING_RATE hp))).
  - apply SGD_new_plain.
  - by rewrite initial_values_shape.
Qed.

Lemma global_update_run (w : weights) (σ : store) :
  shape_of w = model_weights_type →
  global_update model_weights_type initializer w σ = (Ok w, σ ++ w).
Proof.
  intros Hs. unfold global_update.
  rewrite (bind_Ok _ _ _ _ _ (model_tff_run σ)).
  unfold global_model_update. simpl.
  assert (shape_of w = shape_of (initial_values' (length σ))) as Hs'
    by (by rewrite initial_values_shape).
  destruct (assign_block w _ σ Hs') as [us Hus].
  rewrite (bind_Ok _ _ _ _ _ Hus).
  rewrite <-(length_shape _ _ Hs'). apply read_block.
Qed.

Lemma zip_broadcast {A B} (v : A) (xs : list B) :
  zip (federated_broadcast (length xs) v) xs = (λ x, (v, x)) <$> xs.
Proof.
  unfold federated_broadcast. induction xs as [|x xs IH]; simpl; [done|].
  by rewrite IH.
Qed.

Lemma clients_run (gw : weights) (cds : list (list batch)) (σ : store) :
  shape_of gw = model_weights_type →
  ∃ σ',
    federated_map (λ p, local_train' p.1 p.2)
      (zip (federated_broadcast (length cds) gw) cds) σ
    = (Ok ((λ d, trainLocal' gw d (EPOCHS hp) (LEARNING_RATE hp)) <$> cds), σ').
Proof.
  intros Hs. rewrite zip_broadcast. unfold federated_map. revert σ.
  induction cds as [|d cds IH]; intros σ; simpl; [by eexists|].
  rewrite (bind_Ok _ _ _ _ _ (local_train_run gw d σ Hs)).
  destruct (IH (σ ++ trainLocal' gw d (EPOCHS hp) (LEARNING_RATE hp))) as [σ' H].
  rewrite (bind_Ok _ _ _ _ _ H). by eexists.
Qed.

Lemma locals_shape (gw : weights) (cds : list (list batch)) :
  shape_of gw = model_weights_type →
  Forall (λ v, shape_of v = model_weights_type)
    ((λ d, trainLocal' gw d (EPOCHS hp) (LEARNING_RATE hp)) <$> cds).
Proof.
  intros Hs. apply Forall_fmap, Forall_forall. intros d _. simpl.
  by rewrite trainLocal_shape.
Qed.

(** A round on at least one client. *)
Lemma next_fn_run (gw : weights) (cds : list (list batch)) (σ : store) :
  shape_of gw = model_weights_type → cds ≠ [] →
  ∃ σ',
    next_fn model_weights_type initializer batch loss_gradient hp gw cds σ
    = (Ok (combine_mean model_weights_type
             ((λ d, trainLocal' gw d (EPOCHS hp) (LEARNING_RATE hp)) <$> cds)),
       σ').
Proof.
  intros Hs Hne. unfold next_fn.
  destruct (clients_run gw cds σ Hs) as [σ1 H1].
  rewrite (bind_Ok _ _ _ _ _ H1).
  unfold bind at 1. unfold lift.
  rewrite federated_mean_combine;
    [|by destruct cds|by apply locals_shape].
  rewrite global_update_run by apply combine_mean_shape.
  by eexists.
Qed.

(** A round on no client. *)
Lemma next_fn_no_client (gw : weights) (σ : store) :
  next_fn model_weights_type initializer batch loss_gradient hp gw [] σ
  = (Err RuntimeError, σ).
Proof. done. Qed.



(** *** Values that are not finite *)

Lemma sub_NonFinite_r (x : num) (c : Qc) : (x - Finite c * NonFinite)%F = NonFinite.
Proof. by destruct x. Qed.

Lemma epoch_keeps_NonFinite (lr : Qc) (ds : list batch) (w : weights) l n i :
  shape_of w !! l = Some n → (i < n)%nat →
  elem w l i = NonFinite →
  elem (foldl (sgd_step' lr) w ds) l i = NonFinite.
Proof.
  revert w. induction ds as [|b ds IH]; intros w Hl Hi Hw; simpl; [done|].
  apply IH; [by rewrite sgd_step_shape|done|].
  by rewrite (sgd_step_elem lr w b l n i), Hw.
Qed.



(** *** Reading variables back *)

Lemma read_values_stable (xs : list loc) (σ σ' : store) (w : weights) :
  take (length σ) σ' = σ →
  (mapM read_value xs σ).1 = Ok w → (mapM read_value xs σ').1 = Ok w.
Proof.
  intros Ht. revert w. induction xs as [|x xs IH]; intros w; simpl; [done|].
  unfold bind at 1 3. unfold read_value at 1 3.
  destruct (σ !! x) as [t|] eqn:Hx; [|done].
  assert (σ' !! x = Some t) as ->.
  { rewrite <-Ht in Hx. rewrite lookup_take_Some in Hx. by destruct Hx. }
  unfold bind.
  destruct (mapM read_value xs σ) as [[ws|e] σ1]; [|done].
  specialize (IH ws eq_refl).
  destruct (mapM read_value xs σ') as [[ws'|e'] σ1']; simpl in *; [|done].
  by intros; simplify_eq.
Qed.

(** *** The failures that can be reached *)

Lemma fails_ret {A} (E : list error) (a : A) : fails_within E (ret a).
Proof. by intros σ e. Qed.

Lemma fails_raise {A} (E : list error) (e : error) :
  e ∈ E → fails_within E (raise (A := A) e).
Proof. intros He σ e' [= <-]. done. Qed.

Lemma fails_bind {A B} (E : list error) (m : M A) (k : A → M B) :
  fails_within E m → (∀ a, fails_within E (k a)) → fails_within E (bind m k).
Proof.
  intros Hm Hk σ e. unfold bind. specialize (Hm σ).
  destruct (m σ) as [[a|e'] σ1]; simpl in *.
  - apply Hk.
  - intros [= <-]. by apply Hm.
Qed.

Lemma fails_read_value (E : list error) (x : loc) :
  DanglingVariable ∈ E → fails_within E (read_value x).
Proof.
  intros HE σ e. unfold read_value. destruct (σ !! x); simpl; [done|].
  by intros [= <-].
Qed.

Lemma fails_assign (E : list error) (x : loc) (y : tensor) :
  DanglingVariable ∈ E → ValueError ∈ E → fails_within E (assign x y).
Proof.
  intros HD HS σ e. unfold assign. destruct (σ !! x); simpl.
  - case_decide; simpl; [done|]. by intros [= <-].
  - by intros [= <-].
Qed.

Lemma fails_write (E : list error) (x : loc) (y : tensor) :
  fails_within E (write x y).
Proof. by intros σ e. Qed.

Lemma fails_mapM {A B} (E : list error) (f : A → M B) (xs : list A) :
  (∀ x, fails_within E (f x)) → fails_within E (mapM f xs).
Proof.
  intros Hf. induction xs as [|x xs IH]; simpl; [apply fails_ret|].
  apply fails_bind; [apply Hf|]. intros y.
  apply fails_bind; [apply IH|]. intros; apply fails_ret.
Qed.

Lemma fails_for_each {A S} (E : list error) (xs : list A) (body : A → S → M S) :
  (∀ x s, fails_within E (body x s)) → ∀ s, fails_within E (for_each xs body s).
Proof.
  intros Hb. induction xs as [|x xs IH]; intros s; simpl; [apply fails_ret|].
  apply fails_bind; [apply Hb|]. apply IH.
Qed.

Lemma fails_map_structure_assign (E : list error) (vars : list loc) (ys : weights) :
  DanglingVariable ∈ E → ValueError ∈ E →
  fails_within E (map_structure assign vars ys).
Proof.
  intros HD HS. unfold map_structure. case_decide; [|by apply fails_raise].
  apply fails_mapM. intros p. by apply fails_assign.
Qed.

Lemma fails_apply_gradients (E : list error) (opt : SGD) (gvs : list (tensor * loc)) :
  DanglingVariable ∈ E → fails_within E (apply_gradients opt gvs).
Proof.
  intros HD. unfold apply_gradients. revert opt.
  apply fails_for_each. intros gv o. unfold apply_gradient.
  apply fails_bind; [by apply fails_read_value|]. intros x.
  case_decide; (apply fails_bind; [apply fails_write|intros; apply fails_ret]).
Qed.

Lemma fails_train (E : list error) (model : Model) (ds : list batch)
    (gw : weights) (opt : SGD) :
  DanglingVariable ∈ E → ValueError ∈ E →
  fails_within E (train' model ds gw opt).
Proof.
  intros HD HS. unfold train.
  apply fails_bind; [by apply fails_map_structure_assign|]. intros _.
  apply fails_bind;
    [|intros; apply fails_mapM; intros; by apply fails_read_value].
  apply fails_for_each. intros epoch o.
  apply fails_for_each. intros b o'.
  apply fails_bind; [apply fails_mapM; intros; by apply fails_read_value|].
  intros values. by apply fails_apply_gradients.
Qed.

Lemma fails_model_tff (E : list error) : fails_within E model_tff'.
Proof. intros σ e. by rewrite model_tff_run. Qed.

Lemma fails_local_train (E : list error) (gw : weights) (ds : list batch) :
  DanglingVariable ∈ E → ValueError ∈ E →
  fails_within E (local_train' gw ds).
Proof.
  intros HD HS. unfold local_train.
  apply fails_bind; [apply fails_model_tff|]. intros model.
  by apply fails_train.
Qed.

Lemma fails_global_update (E : list error) (w : weights) :
  DanglingVariable ∈ E → ValueError ∈ E →
  fails_within E (global_update model_weights_type initializer w).
Proof.
  intros HD HS. unfold global_update.
  apply fails_bind; [apply fails_model_tff|]. intros model.
  unfold global_model_update.
  apply fails_bind; [by apply fails_map_structure_assign|]. intros _.
  apply fails_mapM. intros; by apply fails_read_value.
Qed.

Lemma fails_federated_mean (E : list error) (ty : shape) (vs : list weights) :
  RuntimeError ∈ E → fails_within E (lift (federated_mean ty vs)).
Proof.
  intros HA σ e. unfold lift, federated_mean. simpl.
  case_decide; [|done]. by intros [= <-].
Qed.

Lemma fails_next_fn (E : list error) (gw : weights) (cds : list (list batch)) :
  DanglingVariable ∈ E → ValueError ∈ E → RuntimeError ∈ E →
  fails_within E
    (next_fn model_weights_type initializer batch loss_gradient hp gw cds).
Proof.
  intros HD HS HA. unfold next_fn, federated_map.
  apply fails_bind; [apply fails_mapM; intros; by apply fails_local_train|].
  intros locals. apply fails_bind; [by apply fails_federated_mean|].
  intros agg. by apply fails_global_update.
Qed.

(** *** A gradient that is not finite at the weights reached *)

Lemma epochs_keep_NonFinite {E} (lr : Qc) (es : list E) (ds : list batch)
    (w : weights) l n i :
  shape_of w !! l = Some n → (i < n)%nat → elem w l i = NonFinite →
  elem (foldl (λ w _, foldl (sgd_step' lr) w ds) w es) l i = NonFinite.
Proof.
  revert w. induction es as [|e es IH]; intros w Hl Hi Hw; simpl; [done|].
  apply IH; [by rewrite epoch_shape|done|].
  by apply (epoch_keeps_NonFinite lr ds w l n i).
Qed.

Lemma trainLocal_reaches_NonFinite (lr : Qc) (epochs k : nat)
    (ds1 : list batch) (b : batch) (ds2 : list batch) (gw : weights) l n i :
  shape_of gw !! l = Some n → (i < n)%nat → (k < epochs)%nat →
  loss_gradient
    (foldl (sgd_step' lr) (trainLocal' gw (ds1 ++ b :: ds2) k lr) ds1) b l i
  = NonFinite →
  elem (trainLocal' gw (ds1 ++ b :: ds2) epochs lr) l i = NonFinite.
Proof.
  intros Hl Hi Hk Hg.
  replace epochs with (k + S (epochs - k - 1))%nat by lia.
  unfold trainLocal in *. rewrite foldl_epochs_app.
  set (wk := foldl (λ w _, foldl (sgd_step' lr) w (ds1 ++ b :: ds2)) gw (seq 1 k))
    in *.
  assert (shape_of wk = shape_of gw) as Hwk
    by apply (trainLocal_shape gw (ds1 ++ b :: ds2) k lr).
  change (seq 1 (S (epochs - k - 1))) with (1%nat :: seq 2 (epochs - k - 1)).
  cbn [foldl].
  apply epochs_keep_NonFinite with (n := n); [by rewrite epoch_shape, Hwk|done|].
  rewrite foldl_app. cbn [foldl].
  apply (epoch_keeps_NonFinite lr ds2 _ l n i);
    [by rewrite sgd_step_shape, epoch_shape, Hwk|done|].
  rewrite (sgd_step_elem lr _ b l n i) by (by rewrite ?epoch_shape, ?Hwk).
  by rewrite Hg, sub_NonFinite_r.
Qed.

End Training.

(** * The claims *)

Ltac by_computation := apply (bool_decide_unpack _); vm_compute; reflexivity.

Lemma not_among (E : list error) (e : error) {A} (m : M A) :
  fails_within E m → e ∉ E → ∀ σ, (m σ).1 ≠ Err e.
Proof. intros Hm He σ Heq. apply He. by apply (Hm σ). Qed.

(** The end-to-end case of the design document: one client, global weights
    [0.0], one batch of gradient [2.0], learning rate 0.1 and one epoch give
    [-0.2], in local training and after the round. *)
Example end_to_end :
  (local_train [1%nat] sevens unit (constant_gradient (q 2)) one_epoch
     [[q 0]] [()] []).1 = Ok [[Finite (Q2Qc (-2 # 10))]]
  ∧ (next_fn [1%nat] sevens unit (constant_gradient (q 2)) one_epoch
       [[q 0]] [[()]] []).1 = Ok [[Finite (Q2Qc (-2 # 10))]].
Proof. split; by_computation. Qed.

(** ** C1 *)

(** C1, as stated, fails on the code: the state that [next_fn] takes and
    returns is the parameter vector alone, and no round number can be read
    off it.  With a gradient that is zero a round returns the very state it
    was given, so no function [round] of the state goes up by one at every
    round. *)
Lemma next_fn_has_no_round :
  ¬ ∃ round : weights → nat,
      ∀ (s : weights) (ds : list (list unit)) (σ : store) (s' : weights) (σ' : store),
        ds ≠ [] → shape_of s = two_entries →
        next_fn two_entries sevens unit (constant_gradient (q 0)) base_py s ds σ
        = (Ok s', σ') →
        round s' = (round s + 1)%nat.
Proof.
  intros [round H].
  destruct (next_fn two_entries sevens unit (constant_gradient (q 0)) base_py
              [[q 0; q 0]] [[()]] []) as [r σ'] eqn:E.
  assert (r = Ok [[q 0; q 0]]) as ->.
  { change r with (r, σ').1. rewrite <-E. by_computation. }
  assert ([[()]] ≠ @nil (list unit)) as Hne by done.
  specialize (H [[q 0; q 0]] _ _ _ _ Hne eq_refl E). lia.
Qed.

(** C1 (amended): for every state [s] of the model's type and every
    non-empty sequence of client datasets, one call of [next_fn] runs one
    full round (broadcast, local training of every client, aggregation) and
    returns the aggregated parameter vector, which is the whole of the new
    state: the state has no round field. *)
Theorem next_fn_returns_aggregate (ty : shape) (init : nat → nat → nat → num)
    (batch : Type) (grad : weights → batch → nat → nat → num) (hp : Hyper)
    (s : weights) (ds : list (list batch)) (σ : store) :
  shape_of s = ty → ds ≠ [] →
  ∃ (aggregated : weights) (σ' : store),
    federated_mean ty
      ((λ d, trainLocal batch grad s d (EPOCHS hp) (LEARNING_RATE hp)) <$> ds)
    = Ok aggregated
    ∧ next_fn ty init batch grad hp s ds σ = (Ok aggregated, σ').
Proof.
  intros Hs Hne.
  destruct (next_fn_run ty init batch grad hp s ds σ Hs Hne) as [σ' H].
  eexists _, σ'. split; [|exact H].
  apply federated_mean_combine; [by destruct ds|by apply locals_shape].
Qed.

Lemma next_fn_returns_aggregate_witness :
  shape_of [[q 0; q 0]] = two_entries ∧ [[(); ()]; [()]] ≠ [] ∧
  ∃ (aggregated : weights) (σ' : store),
    federated_mean two_entries
      ((λ d, trainLocal unit (constant_gradient (q 2)) [[q 0; q 0]] d
               (EPOCHS base_py) (LEARNING_RATE base_py)) <$> [[(); ()]; [()]])
    = Ok aggregated
    ∧ next_fn two_entries sevens unit (constant_gradient (q 2)) base_py
        [[q 0; q 0]] [[(); ()]; [()]] [] = (Ok aggregated, σ').
Proof.
  split; [reflexivity|]. split; [discriminate|].
  apply (next_fn_returns_aggregate two_entries sevens unit
           (constant_gradient (q 2)) base_py [[q 0; q 0]] [[(); ()]; [()]] []);
    [reflexivity|discriminate].
Defined.

(** ** C2 *)

(** C2: on a non-empty sequence of [N] local results of one shape, the
    federated mean without weights returns the arithmetic mean entry by
    entry, [(1/N) * sum over the clients c of localResults[c][i]]; for the
    local results [1, 1] and [3, 3] it returns [2, 2]. *)
Theorem federated_mean_is_arithmetic_mean :
  (∀ (ty : shape) (localResults : list weights),
     localResults ≠ [] → Forall (λ v, shape_of v = ty) localResults →
     ∃ aggregated : weights,
       federated_mean ty localResults = Ok aggregated
       ∧ shape_of aggregated = ty
       ∧ ∀ l n i, ty !! l = Some n → (i < n)%nat →
           elem aggregated l i
           = (Finite (1 / Qc_of_nat (length localResults))
              * sum_over ((λ v, elem v l i) <$> localResults))%F)
  ∧ federated_mean two_entries [[[q 1; q 1]]; [[q 3; q 3]]] = Ok [[q 2; q 2]].
Proof.
  split; [|by_computation].
  intros ty vs Hne Hall. exists (combine_mean ty vs).
  split; [by apply federated_mean_combine|].
  split; [apply combine_mean_shape|].
  intros l n i Hl Hi. by apply combine_mean_elem with (n := n).
Qed.

Lemma federated_mean_is_arithmetic_mean_witness :
  [[[q 1; q 1]]; [[q 3; q 3]]] ≠ []
  ∧ Forall (λ v, shape_of v = two_entries) [[[q 1; q 1]]; [[q 3; q 3]]]
  ∧ ∃ aggregated : weights,
      federated_mean two_entries [[[q 1; q 1]]; [[q 3; q 3]]] = Ok aggregated
      ∧ shape_of aggregated = two_entries
      ∧ ∀ l n i, two_entries !! l = Some n → (i < n)%nat →
          elem aggregated l i
          = (Finite (1 / Qc_of_nat 2)
             * sum_over ((λ v, elem v l i) <$> [[[q 1; q 1]]; [[q 3; q 3]]]))%F.
Proof.
  split; [discriminate|]. split; [by repeat constructor|].
  apply (proj1 federated_mean_is_arithmetic_mean two_entries
           [[[q 1; q 1]]; [[q 3; q 3]]]);
    [discriminate|by repeat constructor].
Defined.

(** ** C3 *)

(** C3: for global weights of the model's type, local training returns the
    vector obtained from a copy of the global weights by going through the
    epochs (outer loop) and, in each, through the batches in the order of
    the dataset (inner loop), with one step of plain gradient descent per
    batch: every entry [i] becomes [w[i] - learningRate * gradient[i]],
    without momentum, decay or clipping, and the shape never changes. *)
Theorem local_train_is_plain_sgd (ty : shape) (init : nat → nat → nat → num)
    (batch : Type) (grad : weights → batch → nat → nat → num) (hp : Hyper)
    (globalWeights : weights) (dataset : list batch) (σ : store) :
  shape_of globalWeights = ty →
  (local_train ty init batch grad hp globalWeights dataset σ).1
  = Ok (foldl (λ w _, foldl (sgd_step batch grad (LEARNING_RATE hp)) w dataset)
          globalWeights (seq 1 (EPOCHS hp)))
  ∧ ∀ (w : weights) (b : batch),
      shape_of (sgd_step batch grad (LEARNING_RATE hp) w b) = shape_of w
      ∧ ∀ l n i, shape_of w !! l = Some n → (i < n)%nat →
          elem (sgd_step batch grad (LEARNING_RATE hp) w b) l i
          = (elem w l i - Finite (LEARNING_RATE hp) * grad w b l i)%F.
Proof.
  intros Hs. split.
  - by rewrite (local_train_run ty init batch grad hp globalWeights dataset σ Hs).
  - intros w b. split; [apply sgd_step_shape|].
    intros l n i Hl Hi. by apply sgd_step_elem with (n := n).
Qed.

Lemma local_train_is_plain_sgd_witness :
  shape_of [[q 0; q 0]] = two_entries
  ∧ (local_train two_entries sevens unit (constant_gradient (q 2)) base_py
       [[q 0; q 0]] [(); ()] []).1
    = Ok (foldl (λ w _, foldl (sgd_step unit (constant_gradient (q 2))
                                 (LEARNING_RATE base_py)) w [(); ()])
            [[q 0; q 0]] (seq 1 (EPOCHS base_py))).
Proof.
  split; [reflexivity|].
  apply (local_train_is_plain_sgd two_entries sevens unit
           (constant_gradient (q 2)) base_py [[q 0; q 0]] [(); ()] []).
  reflexivity.
Defined.

(** ** C4 *)

(** C4: local training never changes the global weights it is given.
    [train] copies them into the variables of its model and assigns to no
    other variable; the model of [local_train] is new, so every variable
    that existed before the call has its old value after it, and variables
    that held the global weights before the call still hold them. *)
Theorem local_train_keeps_global_weights (ty : shape)
    (init : nat → nat → nat → num) (batch : Type)
    (grad : weights → batch → nat → nat → num) (hp : Hyper)
    (globalWeights : weights) (dataset : list batch) :
  (∀ (model : Model) (opt : SGD) (σ : store) (l : loc) (t : tensor),
     l ∉ trainable_variables model → σ !! l = Some t →
     (train batch grad hp model dataset globalWeights opt σ).2 !! l = Some t)
  ∧ (∀ σ : store,
       take (length σ)
         (local_train ty init batch grad hp globalWeights dataset σ).2 = σ)
  ∧ (∀ (σ : store) (held_in : list loc),
       (mapM read_value held_in σ).1 = Ok globalWeights →
       (mapM read_value held_in
          (local_train ty init batch grad hp globalWeights dataset σ).2).1
       = Ok globalWeights).
Proof.
  split; [|split].
  - intros model opt σ l t Hl Ht.
    destruct (frame_train batch grad hp model dataset globalWeights opt σ)
      as [_ H].
    rewrite H; [done| |done]. by apply lookup_lt_Some in Ht.
  - intros σ. apply preserves_take. apply frame_local_train.
  - intros σ held_in. apply read_values_stable.
    apply preserves_take. apply frame_local_train.
Qed.

Lemma local_train_keeps_global_weights_witness :
  ((1%nat ∉ trainable_variables first_variable)
   ∧ ([[q 7; q 7]; [q 1; q 3]] !! 1%nat) = Some [q 1; q 3]
   ∧ ((train unit (constant_gradient (q 2)) base_py
        first_variable [(); ()] [[q 1; q 3]]
        (SGD_new (LEARNING_RATE base_py)) [[q 7; q 7]; [q 1; q 3]]).2 !! 1%nat)
     = Some [q 1; q 3])
  ∧ ((mapM read_value [0%nat] [[q 1; q 3]]).1 = Ok [[q 1; q 3]]
     ∧ (mapM read_value [0%nat]
          (local_train two_entries sevens unit (constant_gradient (q 2)) base_py
             [[q 1; q 3]] [(); ()] [[q 1; q 3]]).2).1
       = Ok [[q 1; q 3]]).
Proof.
  pose proof (local_train_keeps_global_weights two_entries sevens unit
                (constant_gradient (q 2)) base_py [[q 1; q 3]] [(); ()])
    as (Htrain & _ & Hheld).
  assert (1%nat ∉ [0%nat]) as Hout
    by (rewrite list_elem_of_singleton; discriminate).
  split.
  - split; [exact Hout|]. split; [reflexivity|].
    apply Htrain; [exact Hout|reflexivity].
  - split; [reflexivity|]. apply Hheld. reflexivity.
Defined.

(** ** C5 *)




(** ** C6 *)

(** C6, as stated, fails on the code: on an empty sequence of client
    datasets [next_fn] does not fail with ConfigurationError; the failure
    is the [RuntimeError] of the federated mean. *)
Lemma next_fn_no_client_not_ConfigurationError :
  (next_fn two_entries sevens unit (constant_gradient (q 2)) base_py
     [[q 0; q 0]] [] []).1 = Err RuntimeError
  ∧ (next_fn two_entries sevens unit (constant_gradient (q 2)) base_py
       [[q 0; q 0]] [] []).1 ≠ Err ConfigurationError.
Proof. split; [reflexivity|discriminate]. Qed.

(** C6 (amended): [next_fn] has no check of the client datasets, and no
    input makes it fail with ConfigurationError.  On an empty sequence the
    round goes on to the aggregation and fails there, with the failure that
    the federated mean raises on an empty group; no variable is assigned and
    no new state is returned, so the state it was given remains the last
    one.  On any input, a round leaves the variables that existed before it
    as they were. *)
Theorem next_fn_no_client_fails_in_aggregation (ty : shape)
    (init : nat → nat → nat → num) (batch : Type)
    (grad : weights → batch → nat → nat → num) (hp : Hyper)
    (s : weights) (σ : store) :
  shape_of s = ty →
  (∃ e : error,
     federated_mean ty [] = Err e
     ∧ next_fn ty init batch grad hp s [] σ = (Err e, σ))
  ∧ (∀ (ds : list (list batch)) (σ0 : store),
       (next_fn ty init batch grad hp s ds σ0).1 ≠ Err ConfigurationError
       ∧ take (length σ0) (next_fn ty init batch grad hp s ds σ0).2 = σ0).
Proof.
  intros _. split.
  - exists RuntimeError. split; [reflexivity|apply next_fn_no_client].
  - intros ds σ0. split.
    + revert σ0. apply (not_among [DanglingVariable; ValueError; RuntimeError]).
      * apply fails_next_fn; rewrite !elem_of_cons; auto.
      * rewrite !elem_of_cons, elem_of_nil. by intros [?|[?|[?|[]]]].
    + apply preserves_take. apply frame_next_fn.
Qed.

Lemma next_fn_no_client_fails_in_aggregation_witness :
  shape_of [[q 1; q 3]] = two_entries
  ∧ ∃ e : error,
      federated_mean two_entries [] = Err e
      ∧ next_fn two_entries sevens unit (constant_gradient (q 2)) base_py
          [[q 1; q 3]] [] [[q 1; q 3]]
        = (Err e, [[q 1; q 3]]).
Proof.
  split; [reflexivity|].
  apply (next_fn_no_client_fails_in_aggregation two_entries sevens unit
           (constant_gradient (q 2)) base_py [[q 1; q 3]] [[q 1; q 3]]).
  reflexivity.
Defined.

(** ** C7 *)

(** C7, as stated, fails on the code: the federated mean of an empty
    sequence of local results does not fail with AggregationError; the
    failure is the [RuntimeError] of the federated runtime. *)
Lemma federated_mean_empty_not_AggregationError :
  federated_mean two_entries [] = Err RuntimeError
  ∧ federated_mean two_entries [] ≠ Err AggregationError.
Proof. split; [reflexivity|discriminate]. Qed.

(** C7 (amended): the federated mean of an empty sequence of local results
    returns no parameter vector: the federated runtime refuses the empty
    group and the call fails.  The program makes no check of the number of
    results, and on no sequence does the mean fail with AggregationError;
    on a non-empty one it does not fail at all. *)
Theorem federated_mean_empty_group (ty : shape) :
  (∃ e : error, federated_mean ty [] = Err e)
  ∧ (∀ v : weights, federated_mean ty [] ≠ Ok v)
  ∧ (∀ localResults : list weights,
       federated_mean ty localResults ≠ Err AggregationError
       ∧ (localResults ≠ [] → ∃ v, federated_mean ty localResults = Ok v)).
Proof.
  split; [by exists RuntimeError|]. split; [discriminate|].
  intros vs. unfold federated_mean. split.
  - case_decide; discriminate.
  - intros Hne. destruct vs as [|v vs]; [done|].
    rewrite decide_False by (simpl; lia). by eexists.
Qed.

Lemma federated_mean_empty_group_witness :
  [[[q 1; q 1]]; [[q 3; q 3]]] ≠ []
  ∧ ∃ v, federated_mean two_entries [[[q 1; q 1]]; [[q 3; q 3]]] = Ok v.
Proof.
  split; [discriminate|].
  apply (federated_mean_empty_group two_entries). discriminate.
Defined.

(** ** C8 *)

(** C8: the federated mean does not depend on the order of the local
    results, and the weighted federated mean does not depend on the order of
    the pairs of a local result and its weight (floats read as exact). *)
Theorem federated_mean_permutation (ty : shape) :
  (∀ localResults localResults' : list weights,
     localResults ≡ₚ localResults' →
     federated_mean ty localResults = federated_mean ty localResults')
  ∧ (∀ pairs pairs' : list (weights * num),
       pairs ≡ₚ pairs' →
       federated_weighted_mean ty pairs = federated_weighted_mean ty pairs').
Proof.
  split.
  - intros vs vs' Hp. unfold federated_mean.
    by rewrite (federated_sum_Permutation ty vs vs' Hp), (Permutation_length Hp).
  - intros ps ps' Hp. unfold federated_weighted_mean.
    rewrite (federated_sum_Permutation ty _ ((λ p, structure_scale p.1 p.2) <$> ps'))
      by (by apply fmap_Permutation).
    f_equal. apply foldl_Permutation; [apply add_swap|].
    by apply fmap_Permutation.
Qed.

Lemma federated_mean_permutation_witness :
  ([[[q 0]]; [[q 0]]; [[q 9]]] ≡ₚ [[[q 9]]; [[q 0]]; [[q 0]]]
   ∧ federated_mean [1%nat] [[[q 0]]; [[q 0]]; [[q 9]]]
     = federated_mean [1%nat] [[[q 9]]; [[q 0]]; [[q 0]]])
  ∧ ([([[q 0]], q 1); ([[q 0]], q 1); ([[q 9]], q 0)]
       ≡ₚ [([[q 9]], q 0); ([[q 0]], q 1); ([[q 0]], q 1)]
     ∧ federated_weighted_mean [1%nat]
         [([[q 0]], q 1); ([[q 0]], q 1); ([[q 9]], q 0)]
       = federated_weighted_mean [1%nat]
           [([[q 9]], q 0); ([[q 0]], q 1); ([[q 0]], q 1)]).
Proof.
  pose proof (federated_mean_permutation [1%nat]) as [Hmean Hweighted].
  assert (∀ {A} (a b c : A), [a; b; c] ≡ₚ [c; a; b]) as Hrot.
  { intros A a b c. apply (Permutation_app_comm [a; b] [c]). }
  split.
  - split; [apply Hrot|]. apply Hmean, Hrot.
  - split; [apply Hrot|]. apply Hweighted, Hrot.
Defined.

(** ** C9 *)

(** C9, as stated, fails on the code: with a first batch whose gradient is
    not finite at entry 0, local training raises no NumericError and does
    not stop.  It returns a vector whose entry 0 is not finite and whose
    entry 1 has been moved by the second batch in each of the five epochs,
    from 0 to -0.1. *)
Lemma train_raises_no_NumericError :
  (local_train two_entries sevens bool diverging_gradient base_py
     [[q 0; q 0]] [true; false] []).1
  = Ok [[NonFinite; Finite (Q2Qc (-1 # 10))]]
  ∧ (local_train two_entries sevens bool diverging_gradient base_py
       [[q 0; q 0]] [true; false] []).1 ≠ Err NumericError.
Proof.
  assert ((local_train two_entries sevens bool diverging_gradient base_py
             [[q 0; q 0]] [true; false] []).1
          = Ok [[NonFinite; Finite (Q2Qc (-1 # 10))]]) as H by by_computation.
  split; [exact H|]. rewrite H. discriminate.
Qed.

(** C9 (amended): local training has no check of the values it computes:
    no input makes [train] fail with NumericError, there is no retry and no
    clipping.  A gradient that is not finite is applied like any other: for
    global weights of the model's type every batch of every epoch is
    processed and the final vector is returned; and if, in some epoch, the
    gradient of a batch at the weights reached when that batch is processed
    is not finite at an entry, that entry is not finite in the vector
    returned.  ([k] counts the epochs completed before, [ds1] the batches
    of the epoch processed before [b].) *)
Theorem train_applies_non_finite_gradients (ty : shape)
    (init : nat → nat → nat → num) (batch : Type)
    (grad : weights → batch → nat → nat → num) (hp : Hyper)
    (globalWeights : weights) (dataset : list batch) (σ : store) :
  shape_of globalWeights = ty →
  (∀ (model : Model) (gw : weights) (opt : SGD) (σ0 : store),
     (train batch grad hp model dataset gw opt σ0).1 ≠ Err NumericError)
  ∧ ∃ localWeights : weights,
      (local_train ty init batch grad hp globalWeights dataset σ).1
      = Ok localWeights
      ∧ localWeights
        = trainLocal batch grad globalWeights dataset (EPOCHS hp) (LEARNING_RATE hp)
      ∧ ∀ (k : nat) (ds1 : list batch) (b : batch) (ds2 : list batch) l n i,
          dataset = ds1 ++ b :: ds2 → (k < EPOCHS hp)%nat →
          ty !! l = Some n → (i < n)%nat →
          grad
            (foldl (sgd_step batch grad (LEARNING_RATE hp))
               (trainLocal batch grad globalWeights dataset k (LEARNING_RATE hp))
               ds1)
            b l i
          = NonFinite →
          elem localWeights l i = NonFinite.
Proof.
  intros Hs. split.
  - intros model gw opt.
    apply (not_among [DanglingVariable; ValueError]).
    + apply fails_train; rewrite !elem_of_cons; auto.
    + rewrite !elem_of_cons, elem_of_nil. by intros [?|[?|[]]].
  - eexists. split; [|split; [reflexivity|]].
    + by rewrite (local_train_run ty init batch grad hp _ dataset σ Hs).
    + intros k ds1 b ds2 l n i -> Hk Hl Hi Hg.
      apply trainLocal_reaches_NonFinite with (n := n) (k := k); try done.
      by rewrite Hs.
Qed.

Lemma train_applies_non_finite_gradients_witness :
  shape_of [[q 0; q 1]] = two_entries
  ∧ [(); ()] = [] ++ () :: [()] ∧ (0 < EPOCHS base_py)%nat
  ∧ (two_entries !! 0%nat) = Some 2%nat ∧ (0 < 2)%nat
  ∧ gradient_diverging_at_zero
      (foldl (sgd_step unit gradient_diverging_at_zero (LEARNING_RATE base_py))
         (trainLocal unit gradient_diverging_at_zero [[q 0; q 1]] [(); ()] 0
            (LEARNING_RATE base_py)) [])
      () 0%nat 0%nat = NonFinite
  ∧ ∃ localWeights : weights,
      (local_train two_entries sevens unit gradient_diverging_at_zero base_py
         [[q 0; q 1]] [(); ()] []).1 = Ok localWeights
      ∧ elem localWeights 0 0 = NonFinite.
Proof.
  assert (gradient_diverging_at_zero
            (foldl (sgd_step unit gradient_diverging_at_zero (LEARNING_RATE base_py))
               (trainLocal unit gradient_diverging_at_zero [[q 0; q 1]] [(); ()] 0
                  (LEARNING_RATE base_py)) [])
            () 0%nat 0%nat = NonFinite) as Hg by by_computation.
  pose proof (train_applies_non_finite_gradients two_entries sevens unit
                gradient_diverging_at_zero base_py [[q 0; q 1]] [(); ()] []
                eq_refl) as [_ (w & Hrun & _ & Hnf)].
  split; [reflexivity|]. split; [reflexivity|]. split; [simpl; lia|].
  split; [reflexivity|]. split; [lia|]. split; [exact Hg|].
  exists w. split; [exact Hrun|].
  apply (Hnf 0%nat [] () [()] 0%nat 2%nat 0%nat);
    [reflexivity|simpl; lia|reflexivity|lia|exact Hg].
Defined.

(** ** C10 *)

(** C10: for every aggregated parameter vector of the model's type, the
    update of the global model returns weights equal to it.
    [global_model_update] assigns them to the variables of the model, in
    place of what these held, and reads them back; [global_update] does so
    on a new model and changes nothing else. *)
Theorem global_update_is_copy (ty : shape) (init : nat → nat → nat → num)
    (aggregated : weights) :
  shape_of aggregated = ty →
  (∀ (held : weights) (pre : store),
     shape_of held = ty →
     global_model_update
       {| trainable_variables := seq (length pre) (length held) |}
       aggregated (pre ++ held)
     = (Ok aggregated, pre ++ aggregated))
  ∧ (∀ σ : store,
       global_update ty init aggregated σ = (Ok aggregated, σ ++ aggregated)).
Proof.
  intros Hs. split.
  - intros held pre Hh. unfold global_model_update. simpl.
    assert (shape_of aggregated = shape_of held) as Hs' by congruence.
    destruct (assign_block aggregated held pre Hs') as [us Hus].
    rewrite (bind_Ok _ _ _ _ _ Hus).
    rewrite <-(length_shape _ _ Hs'). apply read_block.
  - intros σ. by apply global_update_run.
Qed.

Lemma global_update_is_copy_witness :
  shape_of [[q 2; q 2]] = two_entries
  ∧ shape_of [[q 7; q 7]] = two_entries
  ∧ global_model_update {| trainable_variables := seq 1 1 |}
      [[q 2; q 2]] ([[q 1; q 1]] ++ [[q 7; q 7]])
    = (Ok [[q 2; q 2]], [[q 1; q 1]] ++ [[q 2; q 2]])
  ∧ global_update two_entries sevens [[q 2; q 2]] [[q 1; q 1]; [q 3; q 3]]
    = (Ok [[q 2; q 2]], [[q 1; q 1]; [q 3; q 3]] ++ [[q 2; q 2]]).
Proof.
  pose proof (global_update_is_copy two_entries sevens [[q 2; q 2]] eq_refl)
    as [Hmodel Hnew].
  split; [reflexivity|]. split; [reflexivity|]. split.
  - apply (Hmodel [[q 7; q 7]] [[q 1; q 1]]). reflexivity.
  - apply Hnew.
Defined.

(** * Further properties of the program *)

Section Further.

Variable model_weights_type : shape.
Variable initializer : nat → nat → nat → num.
Variable batch : Type.
Variable loss_gradient : weights → batch → nat → nat → num.
Variable hp : Hyper.

Local Abbreviation model_tff' := (model_tff model_weights_type initializer).
Local Abbreviation initial_values' := (initial_values model_weights_type initializer).
Local Abbreviation sgd_step' := (sgd_step batch loss_gradient).
Local Abbreviation trainLocal' := (trainLocal batch loss_gradient).
Local Abbreviation train' := (train batch loss_gradient hp).
Local Abbreviation local_train' :=
  (local_train model_weights_type initializer batch loss_gradient hp).
Local Abbreviation global_update' := (global_update model_weights_type initializer).
Local Abbreviation next_fn' :=
  (next_fn model_weights_type initializer batch loss_gradient hp).
Local Abbreviation run_rounds' :=
  (run_rounds model_weights_type initializer batch loss_gradient hp).

(** *** Structures that do not fit the model *)

Lemma assign_block_mismatch (gw w : weights) (pre : store) :
  shape_of gw ≠ shape_of w →
  (map_structure assign (seq (length pre) (length w)) gw (pre ++ w)).1
  = Err ValueError.
Proof.
  intros Hs. unfold map_structure. rewrite length_seq.
  case_decide as Hlen; [|done].
  revert gw pre Hs Hlen.
  induction w as [|t w IH]; intros [|g gw] pre Hs Hlen; simplify_eq/=.
  unfold bind at 1. unfold assign at 1. simpl.
  rewrite list_lookup_middle by done.
  case_decide as Hg; [|done].
  rewrite insert_block_head. unfold bind at 1.
  assert (shape_of gw ≠ shape_of w) as Hs'.
  { intros Heq. apply Hs. unfold shape_of in *. simpl. by rewrite Heq, Hg. }
  specialize (IH gw (pre ++ [g]) Hs' Hlen).
  rewrite length_app, Nat.add_1_r in IH. simpl in IH.
  destruct (mapM _ _ _) as [[us|e] σ1]; simpl in *; [done|by simplify_eq].
Qed.

Lemma local_train_mismatch (gw : weights) (ds : list batch) (σ : store) :
  shape_of gw ≠ model_weights_type →
  (local_train' gw ds σ).1 = Err ValueError.
Proof.
  intros Hs. unfold local_train.
  rewrite (bind_Ok _ _ _ _ _ (model_tff_run model_weights_type initializer σ)).
  unfold train. simpl. unfold bind at 1.
  assert (shape_of gw ≠ shape_of (initial_values' (length σ))) as Hs'
    by (by rewrite initial_values_shape).
  pose proof (assign_block_mismatch gw _ σ Hs') as H.
  destruct (map_structure _ _ _ _) as [[us|e] σ1]; simpl in *; [done|].
  by simplify_eq.
Qed.


Lemma next_fn_mismatch (gw : weights) (cds : list (list batch)) (σ : store) :
  shape_of gw ≠ model_weights_type → cds ≠ [] →
  (next_fn' gw cds σ).1 = Err ValueError.
Proof.
  intros Hs Hne. destruct cds as [|d cds]; [done|].
  unfold next_fn, federated_map. simpl.
  unfold bind at 1. unfold bind at 1.
  pose proof (local_train_mismatch gw d σ Hs) as H.
  destruct (local_train' gw d σ) as [[w|e] σ1]; simpl in *; [done|].
  by simplify_eq.
Qed.

(** *** Datasets without batches *)

Lemma trainLocal_nil (gw : weights) (epochs : nat) (lr : Qc) :
  trainLocal' gw [] epochs lr = gw.
Proof.
  unfold trainLocal. generalize (seq 1 epochs). intros es.
  induction es as [|e es IH]; simpl; [done|]. apply IH.
Qed.

(** *** Rounds one after the other *)

Lemma next_fn_typed (s : weights) (cds : list (list batch)) (σ : store) :
  shape_of s = model_weights_type → cds ≠ [] →
  ∃ s' σ', next_fn' s cds σ = (Ok s', σ') ∧ shape_of s' = model_weights_type.
Proof.
  intros Hs Hne.
  destruct (next_fn_run model_weights_type initializer batch loss_gradient hp
              s cds σ Hs Hne) as [σ' H].
  eexists _, σ'. split; [exact H|apply combine_mean_shape].
Qed.

Lemma run_rounds_typed (rounds : nat) (s : weights) (cds : list (list batch))
    (σ : store) :
  shape_of s = model_weights_type → cds ≠ [] →
  ∃ s' σ', run_rounds' rounds s cds σ = (Ok s', σ')
           ∧ shape_of s' = model_weights_type.
Proof.
  intros Hs Hne. revert s σ Hs.
  induction rounds as [|r IH]; intros s σ Hs; simpl; [by eexists _, _|].
  destruct (next_fn_typed s cds σ Hs Hne) as (s1 & σ1 & H1 & Hs1).
  rewrite (bind_Ok _ _ _ _ _ H1). by apply IH.
Qed.

Lemma frame_run_rounds (rounds : nat) (s : weights) (cds : list (list batch)) :
  frame [] (run_rounds' rounds s cds).
Proof.
  revert s. induction rounds as [|r IH]; intros s; simpl; [apply frame_ret|].
  apply frame_bind; [apply frame_next_fn|]. intros s'. apply IH.
Qed.

Lemma model_init_run (σ : store) :
  model_init model_weights_type initializer σ
  = (Ok (initial_values' (length σ)), σ ++ initial_values' (length σ)).
Proof.
  unfold model_init.
  rewrite (bind_Ok _ _ _ _ _ (model_tff_run model_weights_type initializer σ)).
  simpl. apply read_block.
Qed.

(** *** Gradients that vanish *)

Lemma sub_zero_step (x : num) (lr : Qc) : (x - Finite lr * Finite 0)%F = x.
Proof. destruct x as [a|]; simpl; [|done]. f_equal. ring. Qed.

Lemma sgd_step_stationary (lr : Qc) (w : weights) (b : batch) :
  (∀ l n i, shape_of w !! l = Some n → (i < n)%nat →
     loss_gradient w b l i = Finite 0) →
  sgd_step' lr w b = w.
Proof.
  intros Hg. apply (weights_ext (shape_of w)); [apply sgd_step_shape|done|].
  intros l n i Hl Hi.
  rewrite (sgd_step_elem batch loss_gradient lr w b l n i) by done.
  rewrite (Hg l n i) by done. apply sub_zero_step.
Qed.

Lemma trainLocal_stationary (lr : Qc) (epochs : nat) (w : weights) (ds : list batch) :
  (∀ b l n i, b ∈ ds → shape_of w !! l = Some n → (i < n)%nat →
     loss_gradient w b l i = Finite 0) →
  trainLocal' w ds epochs lr = w.
Proof.
  intros Hg.
  assert (foldl (sgd_step' lr) w ds = w) as Hepoch.
  { induction ds as [|b ds IH]; simpl; [done|].
    rewrite sgd_step_stationary.
    - apply IH. intros b' l n i Hb'. apply Hg. by right.
    - intros l n i. apply Hg. by left. }
  unfold trainLocal. generalize (seq 1 epochs). intros es.
  induction es as [|e es IH]; simpl; [done|]. by rewrite Hepoch.
Qed.

(** *** Entries that are not finite *)

Lemma sum_over_NonFinite (xs : list num) : NonFinite ∈ xs → sum_over xs = NonFinite.
Proof.
  unfold sum_over. induction xs as [|x xs IH]; intros Hin; [by apply elem_of_nil in Hin|].
  apply elem_of_cons in Hin as [<-|Hin]; simpl; [done|].
  rewrite IH by done. by destruct x.
Qed.

Lemma trainLocal_keeps_NonFinite (lr : Qc) (epochs : nat) (ds : list batch)
    (w : weights) l n i :
  shape_of w !! l = Some n → (i < n)%nat → elem w l i = NonFinite →
  elem (trainLocal' w ds epochs lr) l i = NonFinite.
Proof.
  unfold trainLocal. generalize (seq 1 epochs). intros es. revert w.
  induction es as [|e es IH]; intros w Hl Hi Hw; simpl; [done|].
  apply IH; [by rewrite epoch_shape|done|].
  by apply (epoch_keeps_NonFinite batch loss_gradient lr ds w l n i).
Qed.

Lemma combine_mean_NonFinite (vs : list weights) (v : weights) l n i :
  v ∈ vs → model_weights_type !! l = Some n → (i < n)%nat →
  elem v l i = NonFinite →
  elem (combine_mean model_weights_type vs) l i = NonFinite.
Proof.
  intros Hin Hl Hi Hv.
  rewrite (combine_mean_elem model_weights_type vs l n i) by done.
  rewrite sum_over_NonFinite; [done|].
  rewrite <-Hv. apply (list_elem_of_fmap_2 (λ v, elem v l i)), Hin.
Qed.

End Further.

(** *** The mean of steps *)

Lemma federated_mean_Permutation (ty : shape) (vs vs' : list weights) :
  vs ≡ₚ vs' → federated_mean ty vs = federated_mean ty vs'.
Proof.
  intros Hp. unfold federated_mean.
  by rewrite (federated_sum_Permutation ty vs vs' Hp), (Permutation_length Hp).
Qed.



(** ** The properties *)

Section Properties.

Variable model_weights_type : shape.
Variable initializer : nat → nat → nat → num.
Variable batch : Type.
Variable loss_gradient : weights → batch → nat → nat → num.
Variable hp : Hyper.

Local Abbreviation trainLocal' := (trainLocal batch loss_gradient).
Local Abbreviation local_train' :=
  (local_train model_weights_type initializer batch loss_gradient hp).
Local Abbreviation global_update' := (global_update model_weights_type initializer).
Local Abbreviation init_global_model' :=
  (init_global_model model_weights_type initializer).
Local Abbreviation next_fn' :=
  (next_fn model_weights_type initializer batch loss_gradient hp).
Local Abbreviation run_rounds' :=
  (run_rounds model_weights_type initializer batch loss_gradient hp).

(** X1: on global weights of the model's type local training does not
    fail, returns weights of the model's type, and leaves the variables
    that existed before the call as they were. *)
Theorem local_train_keeps_shape (gw : weights) (ds : list batch) (σ : store) :
  shape_of gw = model_weights_type →
  ∃ w σ',
    local_train' gw ds σ = (Ok w, σ')
    ∧ shape_of w = model_weights_type
    ∧ take (length σ) σ' = σ.
Proof.
  intros Hs.
  pose proof (frame_local_train model_weights_type initializer batch
                loss_gradient hp gw ds σ) as Hframe.
  rewrite (local_train_run _ _ _ _ _ gw ds σ Hs) in *.
  eexists _, _. split; [done|]. split; [by rewrite trainLocal_shape|].
  by apply preserves_take.
Qed.

(** X2: a client whose dataset has no batch returns the global weights as
    they are, whatever the number of epochs. *)
Theorem local_train_without_batches (gw : weights) (σ : store) :
  shape_of gw = model_weights_type →
  (local_train' gw [] σ).1 = Ok gw.
Proof.
  intros Hs. rewrite (local_train_run _ _ _ _ _ gw [] σ Hs). simpl.
  by rewrite trainLocal_nil.
Qed.

(** X4: from a state of the model's type and with at least one client, any
    number of rounds runs without failure, every state on the way and the
    last one have the model's type, and the variables that existed before
    keep their values. *)
Theorem run_rounds_keeps_type (rounds : nat) (s : weights)
    (cds : list (list batch)) (σ : store) :
  shape_of s = model_weights_type → cds ≠ [] →
  ∃ s' σ',
    run_rounds' rounds s cds σ = (Ok s', σ')
    ∧ shape_of s' = model_weights_type
    ∧ take (length σ) σ' = σ.
Proof.
  intros Hs Hne.
  destruct (run_rounds_typed model_weights_type initializer batch loss_gradient
              hp rounds s cds σ Hs Hne) as (s' & σ' & H & Hs').
  exists s', σ'. split; [done|]. split; [done|].
  change σ' with (Ok s', σ').2. rewrite <-H.
  apply preserves_take, frame_run_rounds.
Qed.

(** X5: the state that [init_global_model] gives has the model's type, so
    the loop of [__main__] started from it runs any number of rounds on at
    least one client without failure. *)
Theorem training_from_initial_state (rounds : nat) (cds : list (list batch))
    (σ : store) :
  cds ≠ [] →
  (∃ s0, (init_global_model' σ).1 = Ok s0 ∧ shape_of s0 = model_weights_type)
  ∧ ∃ s' σ',
      bind init_global_model' (λ state, run_rounds' rounds state cds) σ
      = (Ok s', σ')
      ∧ shape_of s' = model_weights_type.
Proof.
  intros Hne.
  pose proof (model_init_run model_weights_type initializer σ) as Hinit.
  split.
  - eexists. unfold init_global_model. rewrite Hinit.
    split; [done|apply initial_values_shape].
  - unfold init_global_model. rewrite (bind_Ok _ _ _ _ _ Hinit).
    apply run_rounds_typed; [apply initial_values_shape|done].
Qed.

(** X6: the result of a round does not depend on the order in which the
    clients' datasets are given (floats read as exact), nor on the store it
    runs in; this includes the failures. *)
Theorem next_fn_client_order (s : weights) (cds cds' : list (list batch))
    (σ σ' : store) :
  cds ≡ₚ cds' →
  (next_fn model_weights_type initializer batch loss_gradient hp s cds σ).1
  = (next_fn model_weights_type initializer batch loss_gradient hp s cds' σ').1.
Proof.
  intros Hp.
  destruct (decide (cds = [])) as [->|Hne].
  { apply Permutation_nil_l in Hp. by subst. }
  assert (cds' ≠ []) as Hne'.
  { intros ->. by apply Permutation_nil_r in Hp. }
  destruct (decide (shape_of s = model_weights_type)) as [Hs|Hs].
  - destruct (next_fn_run _ initializer batch loss_gradient hp s cds σ Hs Hne)
      as [σ1 ->].
    destruct (next_fn_run _ initializer batch loss_gradient hp s cds' σ' Hs Hne')
      as [σ1' ->].
    simpl.
    rewrite <-!federated_mean_combine;
      [|by destruct cds'|by apply locals_shape|by destruct cds
       |by apply locals_shape].
    apply federated_mean_Permutation. by apply fmap_Permutation.
  - by rewrite !next_fn_mismatch.
Qed.

(** X7: with a single client a round returns what the local training of
    that client returns: the mean of one member is that member. *)
Theorem next_fn_single_client (s : weights) (d : list batch) (σ σ' : store) :
  shape_of s = model_weights_type →
  (next_fn' s [d] σ).1 = (local_train' s d σ').1.
Proof.
  intros Hs.
  assert ([d] ≠ []) as Hne by done.
  destruct (next_fn_run _ initializer batch loss_gradient hp s [d] σ Hs Hne)
    as [σ1 ->].
  rewrite (local_train_run _ _ _ _ _ s d σ' Hs). simpl. f_equal.
  apply (combine_mean_replicate model_weights_type 1); [lia|].
  by rewrite trainLocal_shape.
Qed.

(** X8: global weights at which the gradient vanishes on every batch of a
    client come back unchanged from the local training of that client,
    whatever the number of epochs; and any number of rounds with that
    client alone returns them. *)
Theorem stationary_weights_are_kept (s : weights) (d : list batch) (σ : store) :
  shape_of s = model_weights_type →
  (∀ b l n i, b ∈ d →
     model_weights_type !! l = Some n → (i < n)%nat →
     loss_gradient s b l i = Finite 0) →
  (local_train' s d σ).1 = Ok s
  ∧ ∀ rounds, (run_rounds' rounds s [d] σ).1 = Ok s.
Proof.
  intros Hs Hg.
  assert (trainLocal' s d (EPOCHS hp) (LEARNING_RATE hp) = s) as Hlocal.
  { apply trainLocal_stationary. intros b l n i Hb Hl Hi.
    apply (Hg b l n i); [done| |done]. by rewrite <-Hs. }
  split.
  - by rewrite (local_train_run _ _ _ _ _ s d σ Hs), Hlocal.
  - intros rounds. revert σ.
    induction rounds as [|r IH]; intros σ; simpl; [done|].
    assert ([d] ≠ []) as Hne by done.
    destruct (next_fn_run _ initializer batch loss_gradient hp s [d] σ Hs Hne)
      as [σ1 H1].
    assert (combine_mean model_weights_type
              ((λ d0, trainLocal' s d0 (EPOCHS hp) (LEARNING_RATE hp)) <$> [d])
            = s) as Hagg.
    { rewrite list_fmap_singleton, Hlocal.
      apply (combine_mean_replicate model_weights_type 1); [lia|done]. }
    rewrite Hagg in H1. rewrite (bind_Ok _ _ _ _ _ H1). apply IH.
Qed.


Lemma run_rounds_keeps_NonFinite (rounds : nat) (s : weights)
    (cds : list (list batch)) (σ : store) l n i :
  shape_of s = model_weights_type → cds ≠ [] →
  model_weights_type !! l = Some n → (i < n)%nat →
  elem s l i = NonFinite →
  ∃ s' σ', run_rounds' rounds s cds σ = (Ok s', σ') ∧ elem s' l i = NonFinite.
Proof.
  intros Hs Hne Hl Hi. revert s σ Hs.
  induction rounds as [|r IH]; intros s σ Hs Hnf; simpl; [by eexists _, _|].
  destruct (next_fn_run _ initializer batch loss_gradient hp s cds σ Hs Hne)
    as [σ1 H1].
  rewrite (bind_Ok _ _ _ _ _ H1).
  apply IH; [apply combine_mean_shape|].
  destruct cds as [|d cds]; [done|].
  apply (combine_mean_NonFinite model_weights_type _
           (trainLocal' s d (EPOCHS hp) (LEARNING_RATE hp)) l n i);
    [rewrite fmap_cons; by left|done|done|].
  apply trainLocal_keeps_NonFinite with (n := n); [by rewrite Hs|done|done].
Qed.

(** X14: one client is enough to spoil the global model.  If, in the
    first round, the gradient that a client computes for one of its batches
    at the weights it has reached is not finite at an entry, then after
    that round the entry of the global state is not finite, and it stays so
    through all later rounds; the rounds do not fail.  ([k] counts the
    epochs the client has completed, [ds1] the batches of the epoch it has
    processed before [b].) *)
Theorem non_finite_client_spoils_state (rounds : nat) (s : weights)
    (cds : list (list batch)) (σ : store) (k : nat)
    (ds1 : list batch) (b : batch) (ds2 : list batch) l n i :
  shape_of s = model_weights_type →
  ds1 ++ b :: ds2 ∈ cds → (k < EPOCHS hp)%nat → (1 ≤ rounds)%nat →
  model_weights_type !! l = Some n → (i < n)%nat →
  loss_gradient
    (foldl (sgd_step batch loss_gradient (LEARNING_RATE hp))
       (trainLocal' s (ds1 ++ b :: ds2) k (LEARNING_RATE hp)) ds1)
    b l i
  = NonFinite →
  ∃ s', (run_rounds' rounds s cds σ).1 = Ok s' ∧ elem s' l i = NonFinite.
Proof.
  intros Hs Hd Hk Hr Hl Hi Hg.
  assert (cds ≠ []) as Hne by (intros ->; by apply elem_of_nil in Hd).
  destruct rounds as [|r]; [lia|]. simpl.
  destruct (next_fn_run _ initializer batch loss_gradient hp s cds σ Hs Hne)
    as [σ1 H1].
  rewrite (bind_Ok _ _ _ _ _ H1).
  edestruct (run_rounds_keeps_NonFinite r) as (s' & σ' & -> & Hnf);
    [apply combine_mean_shape|exact Hne|exact Hl|exact Hi| |by exists s'].
  apply (combine_mean_NonFinite model_weights_type _
           (trainLocal' s (ds1 ++ b :: ds2) (EPOCHS hp) (LEARNING_RATE hp)) l n i);
    [|done|done|].
  - by apply (list_elem_of_fmap_2
                (λ d, trainLocal' s d (EPOCHS hp) (LEARNING_RATE hp))).
  - apply trainLocal_reaches_NonFinite with (n := n) (k := k); try done.
    by rewrite Hs.
Qed.

End Properties.

(** X3: the values that the initializers give to the new local model, and
    the store in which local training runs, have no part in its result. *)
Theorem local_train_ignores_initial_values (ty : shape)
    (init init' : nat → nat → nat → num) (batch : Type)
    (grad : weights → batch → nat → nat → num) (hp : Hyper)
    (gw : weights) (ds : list batch) (σ σ' : store) :
  shape_of gw = ty →
  (local_train ty init batch grad hp gw ds σ).1
  = (local_train ty init' batch grad hp gw ds σ').1.
Proof.
  intros Hs.
  by rewrite (local_train_run ty init batch grad hp gw ds σ Hs),
             (local_train_run ty init' batch grad hp gw ds σ' Hs).
Qed.

(** X12: epochs add up.  Training for [a + b] epochs gives what training
    for [b] epochs gives when it starts from the result of [a] epochs: the
    optimizer carries nothing from one epoch to the next. *)
Theorem local_train_epochs_add (ty : shape) (init : nat → nat → nat → num)
    (batch : Type) (grad : weights → batch → nat → nat → num)
    (hp_a hp_b hp_ab : Hyper) (gw : weights) (ds : list batch) (σ : store) :
  shape_of gw = ty →
  EPOCHS hp_ab = (EPOCHS hp_a + EPOCHS hp_b)%nat →
  LEARNING_RATE hp_a = LEARNING_RATE hp_ab →
  LEARNING_RATE hp_b = LEARNING_RATE hp_ab →
  ∃ w_a,
    (local_train ty init batch grad hp_a gw ds σ).1 = Ok w_a
    ∧ (local_train ty init batch grad hp_ab gw ds σ).1
      = (local_train ty init batch grad hp_b w_a ds σ).1.
Proof.
  intros Hs He Ha Hb. eexists. split.
  - by rewrite (local_train_run ty init batch grad hp_a gw ds σ Hs).
  - rewrite (local_train_run ty init batch grad hp_ab gw ds σ Hs).
    rewrite (local_train_run ty init batch grad hp_b _ ds σ)
      by (by rewrite trainLocal_shape).
    simpl. f_equal. unfold trainLocal.
    by rewrite He, Ha, Hb, foldl_epochs_app.
Qed.

(** X13: within one epoch the batches add up.  Training on the batches
    [ds1] followed by [ds2] gives what training on [ds2] gives when it
    starts from the result of training on [ds1]. *)
Theorem local_train_batches_add (ty : shape) (init : nat → nat → nat → num)
    (batch : Type) (grad : weights → batch → nat → nat → num) (hp : Hyper)
    (gw : weights) (ds1 ds2 : list batch) (σ : store) :
  shape_of gw = ty → EPOCHS hp = 1%nat →
  ∃ w1,
    (local_train ty init batch grad hp gw ds1 σ).1 = Ok w1
    ∧ (local_train ty init batch grad hp gw (ds1 ++ ds2) σ).1
      = (local_train ty init batch grad hp w1 ds2 σ).1.
Proof.
  intros Hs He. eexists. split.
  - by rewrite (local_train_run ty init batch grad hp gw ds1 σ Hs).
  - rewrite (local_train_run ty init batch grad hp gw (ds1 ++ ds2) σ Hs).
    rewrite (local_train_run ty init batch grad hp _ ds2 σ)
      by (by rewrite trainLocal_shape).
    simpl. f_equal. unfold trainLocal. rewrite He. simpl.
    by rewrite foldl_app.
Qed.

(** ** The properties at concrete inputs *)

Lemma local_train_keeps_shape_witness :
  shape_of [[q 0; q 0]] = two_entries
  ∧ ∃ w σ',
      local_train two_entries sevens unit (constant_gradient (q 2)) base_py
        [[q 0; q 0]] [(); ()] [[q 1; q 3]] = (Ok w, σ')
      ∧ shape_of w = two_entries
      ∧ take (length [[q 1; q 3]]) σ' = [[q 1; q 3]].
Proof.
  split; [reflexivity|].
  apply (local_train_keeps_shape two_entries sevens unit
           (constant_gradient (q 2)) base_py [[q 0; q 0]] [(); ()] [[q 1; q 3]]).
  reflexivity.
Defined.

Lemma local_train_without_batches_witness :
  shape_of [[q 1; q 3]] = two_entries
  ∧ (local_train two_entries sevens unit (constant_gradient (q 2)) base_py
       [[q 1; q 3]] [] []).1 = Ok [[q 1; q 3]].
Proof.
  split; [reflexivity|].
  apply (local_train_without_batches two_entries sevens unit
           (constant_gradient (q 2)) base_py [[q 1; q 3]] []).
  reflexivity.
Defined.

Lemma local_train_ignores_initial_values_witness :
  shape_of [[q 1; q 3]] = two_entries
  ∧ (local_train two_entries sevens unit (constant_gradient (q 2)) base_py
       [[q 1; q 3]] [(); ()] []).1
    = (local_train two_entries (λ _ _ _, NonFinite) unit
         (constant_gradient (q 2)) base_py [[q 1; q 3]] [(); ()] [[q 9]]).1.
Proof.
  split; [reflexivity|].
  apply (local_train_ignores_initial_values two_entries sevens
           (λ _ _ _, NonFinite) unit (constant_gradient (q 2)) base_py
           [[q 1; q 3]] [(); ()] [] [[q 9]]).
  reflexivity.
Defined.

Lemma run_rounds_keeps_type_witness :
  shape_of [[q 1; q 3]] = two_entries ∧ [[(); ()]; [()]] ≠ []
  ∧ ∃ s' σ',
      run_rounds two_entries sevens unit (constant_gradient (q 2)) base_py 3
        [[q 1; q 3]] [[(); ()]; [()]] [[q 9]] = (Ok s', σ')
      ∧ shape_of s' = two_entries
      ∧ take (length [[q 9]]) σ' = [[q 9]].
Proof.
  split; [reflexivity|]. split; [discriminate|].
  apply (run_rounds_keeps_type two_entries sevens unit
           (constant_gradient (q 2)) base_py 3 [[q 1; q 3]] [[(); ()]; [()]]
           [[q 9]]); [reflexivity|discriminate].
Defined.

Lemma training_from_initial_state_witness :
  [[(); ()]; [()]] ≠ []
  ∧ ∃ s' σ',
      bind (init_global_model two_entries sevens)
        (λ state, run_rounds two_entries sevens unit (constant_gradient (q 2))
                    base_py 3 state [[(); ()]; [()]]) []
      = (Ok s', σ')
      ∧ shape_of s' = two_entries.
Proof.
  split; [discriminate|].
  apply (training_from_initial_state two_entries sevens unit
           (constant_gradient (q 2)) base_py 3 [[(); ()]; [()]] []).
  discriminate.
Defined.

Lemma next_fn_client_order_witness :
  [[true]; [false; false]; []] ≡ₚ [[]; [true]; [false; false]]
  ∧ (next_fn two_entries sevens bool diverging_gradient base_py
       [[q 1; q 3]] [[true]; [false; false]; []] []).1
    = (next_fn two_entries sevens bool diverging_gradient base_py
         [[q 1; q 3]] [[]; [true]; [false; false]] [[q 9]]).1.
Proof.
  assert ([[true]; [false; false]; []] ≡ₚ [[]; [true]; [false; false]]) as Hp
    by apply (Permutation_app_comm [[true]; [false; false]] [[]]).
  split; [exact Hp|].
  apply (next_fn_client_order two_entries sevens bool diverging_gradient
           base_py [[q 1; q 3]] _ _ [] [[q 9]] Hp).
Defined.

Lemma next_fn_single_client_witness :
  shape_of [[q 1; q 3]] = two_entries
  ∧ (next_fn two_entries sevens unit (constant_gradient (q 2)) base_py
       [[q 1; q 3]] [[(); ()]] []).1
    = (local_train two_entries sevens unit (constant_gradient (q 2)) base_py
         [[q 1; q 3]] [(); ()] [[q 9]]).1.
Proof.
  split; [reflexivity|].
  apply (next_fn_single_client two_entries sevens unit
           (constant_gradient (q 2)) base_py [[q 1; q 3]] [(); ()] [] [[q 9]]).
  reflexivity.
Defined.

Lemma stationary_weights_are_kept_witness :
  shape_of [[q 1; q 3]] = two_entries
  ∧ (∀ (b : unit) l n i, b ∈ [(); ()] →
       two_entries !! l = Some n → (i < n)%nat →
       constant_gradient (Finite 0) [[q 1; q 3]] b l i = Finite 0)
  ∧ (local_train two_entries sevens unit (constant_gradient (Finite 0)) base_py
       [[q 1; q 3]] [(); ()] []).1 = Ok [[q 1; q 3]]
  ∧ (run_rounds two_entries sevens unit (constant_gradient (Finite 0)) base_py
       4 [[q 1; q 3]] [[(); ()]] []).1 = Ok [[q 1; q 3]].
Proof.
  pose proof (stationary_weights_are_kept two_entries sevens unit
                (constant_gradient (Finite 0)) base_py [[q 1; q 3]] [(); ()] []
                eq_refl (λ _ _ _ _ _ _ _, eq_refl)) as [Hlocal Hrounds].
  split; [reflexivity|]. split; [reflexivity|].
  split; [exact Hlocal|apply Hrounds].
Defined.


Lemma local_train_epochs_add_witness :
  shape_of [[q 1; q 3]] = two_entries
  ∧ EPOCHS base_py = (1 + 4)%nat
  ∧ ∃ w_a,
      (local_train two_entries sevens unit (constant_gradient (q 2))
         {| EPOCHS := 1; LEARNING_RATE := LEARNING_RATE base_py |}
         [[q 1; q 3]] [(); ()] []).1 = Ok w_a
      ∧ (local_train two_entries sevens unit (constant_gradient (q 2)) base_py
           [[q 1; q 3]] [(); ()] []).1
        = (local_train two_entries sevens unit (constant_gradient (q 2))
             {| EPOCHS := 4; LEARNING_RATE := LEARNING_RATE base_py |}
             w_a [(); ()] []).1.
Proof.
  split; [reflexivity|]. split; [reflexivity|].
  apply (local_train_epochs_add two_entries sevens unit
           (constant_gradient (q 2))
           {| EPOCHS := 1; LEARNING_RATE := LEARNING_RATE base_py |}
           {| EPOCHS := 4; LEARNING_RATE := LEARNING_RATE base_py |}
           base_py [[q 1; q 3]] [(); ()] []); reflexivity.
Defined.

Lemma local_train_batches_add_witness :
  shape_of [[q 1; q 3]] = two_entries ∧ EPOCHS one_epoch = 1%nat
  ∧ ∃ w1,
      (local_train two_entries sevens bool diverging_gradient one_epoch
         [[q 1; q 3]] [false] []).1 = Ok w1
      ∧ (local_train two_entries sevens bool diverging_gradient one_epoch
           [[q 1; q 3]] ([false] ++ [true; false]) []).1
        = (local_train two_entries sevens bool diverging_gradient one_epoch
             w1 [true; false] []).1.
Proof.
  split; [reflexivity|]. split; [reflexivity|].
  apply (local_train_batches_add two_entries sevens bool diverging_gradient
           one_epoch [[q 1; q 3]] [false] [true; false] []); reflexivity.
Defined.

Lemma non_finite_client_spoils_state_witness :
  shape_of [[q 1; q 3]] = two_entries
  ∧ [false] ++ true :: [false] ∈ [[false]; [false] ++ true :: [false]]
  ∧ (1 < EPOCHS base_py)%nat ∧ (1 ≤ 3)%nat
  ∧ (two_entries !! 0%nat) = Some 2%nat ∧ (0 < 2)%nat
  ∧ diverging_gradient
      (foldl (sgd_step bool diverging_gradient (LEARNING_RATE base_py))
         (trainLocal bool diverging_gradient [[q 1; q 3]]
            ([false] ++ true :: [false]) 1 (LEARNING_RATE base_py)) [false])
      true 0%nat 0%nat = NonFinite
  ∧ ∃ s',
      (run_rounds two_entries sevens bool diverging_gradient base_py 3
         [[q 1; q 3]] [[false]; [false] ++ true :: [false]] []).1 = Ok s'
      ∧ elem s' 0 0 = NonFinite.
Proof.
  assert ([false] ++ true :: [false] ∈ [[false]; [false] ++ true :: [false]])
    as Hd by (right; left).
  split; [reflexivity|]. split; [exact Hd|]. split; [simpl; lia|].
  split; [lia|]. split; [reflexivity|]. split; [lia|]. split; [reflexivity|].
  apply (non_finite_client_spoils_state two_entries sevens bool
           diverging_gradient base_py 3 [[q 1; q 3]]
           [[false]; [false] ++ true :: [false]] [] 1%nat [false] true [false]
           0%nat 2%nat 0%nat);
    [reflexivity|exact Hd|simpl; lia|lia|reflexivity|lia|reflexivity].
Defined.
